(** * Ticket analytics route: a shallow embedding and its properties

    The handler [GET] of the analytics API route dispatches on the
    [route] query parameter to one of seven read-only aggregations over
    the Prisma ticket store.  This development embeds the handler and
    the seven aggregations as programs over an explicit query
    interface, gives the store a reference semantics, and proves the
    properties stated for them. *)

From Stdlib Require Import ZArith String Ascii List Lia.
From Stdlib Require Import Sorted Permutation.
From Stdlib Require Import Uint63 PrimFloat.
From stdpp Require Import base option list sorting strings gmap.

Local Open Scope string_scope.
Local Open Scope list_scope.
Local Open Scope Z_scope.
Local Set Warnings "-register-all".

(** ** Data model *)

(** Prisma enums are plain strings at run time ([Status.Open] is the
    string ["Open"]); the UI types of [ticket-info.tsx] declare
    [status], [type] and [priority] as [string] as well. *)
Module Status.
Definition t := string.
Definition Open : t := "Open".
Definition Closed : t := "Closed".
End Status.

(** A JavaScript [Date] is a time value: milliseconds since the epoch, UTC. *)
Definition Date := Z.

Record Ticket := mkTicket {
  ticket_id : string;
  title : string;
  description : string;
  status : Status.t;
  type : string;
  priority : string;
  createdAt : Date;
  updatedAt : Date;
  userId : option Z;
  clientId : Z
}.

Record Person := mkPerson {
  person_id : Z;
  firstName : string;
  lastName : string;
  email : string;
  avatar : option string;
  phone : string
}.

(** Modelled from the spec: the module [@/prisma/ticketMetadata] is not
    part of the sources at hand.  Its [type] table is a plain object
    that maps the raw ticket type to a display label ([text]), a [color]
    and an [icon]; [metadata_type] holds the table's own keys. *)
Record MetaEntry := mkMeta {
  text : string;
  color : string;
  icon : string
}.

Record Metadata := mkMetadata {
  metadata_type : gmap string MetaEntry
}.

(** The members every plain object inherits from [Object.prototype]. *)
Definition object_prototype_members : list string :=
  ["constructor"; "__defineGetter__"; "__defineSetter__"; "hasOwnProperty";
   "__lookupGetter__"; "__lookupSetter__"; "isPrototypeOf";
   "propertyIsEnumerable"; "toString"; "valueOf"; "__proto__"; "toLocaleString"].

(** What [table[key]] evaluates to: an entry of the table, a member
    inherited from [Object.prototype] (a function, or the prototype
    itself for ["__proto__"]), or [undefined]. *)
Inductive member :=
| OwnEntry (entry : MetaEntry)
| Inherited
| Undefined.

Definition get_member (table : gmap string MetaEntry) (key : string) : member :=
  match table !! key with
  | Some entry => OwnEntry entry
  | None => if bool_decide (key ∈ object_prototype_members) then Inherited else Undefined
  end.

(** The snapshot of the database a request observes. [person.id] is the
    primary key of the person table, hence a finite map. *)
Record Store := mkStore {
  tickets : list Ticket;
  persons : gmap Z Person
}.

(** ** JSON values and responses *)

(** The body handed to [new Response] is [JSON.stringify v]; it is kept
    as the JSON tree of that text.  Integral numbers (counts) and the
    one binary64 quotient are kept apart. *)
Inductive json :=
| JNull
| JNum (n : Z)
| JFloat (f : float)
| JStr (s : string)
| JArr (items : list json)
| JObj (fields : list (string * json)).

Record Response := mkResponse {
  resp_status : Z;
  resp_headers : list (string * string);
  resp_body : json
}.

Definition json_response (st : Z) (b : json) : Response :=
  {| resp_status := st;
     resp_headers := [("Content-Type", "application/json")];
     resp_body := b |}.

Definition message_body (m : string) : json := JObj [("message", JStr m)].

(** [JSON.stringify] writes a number that is not finite as [null]. *)
Definition is_finite (f : float) : bool :=
  negb (PrimFloat.is_nan f) && negb (PrimFloat.is_infinity f).

Definition json_of_number (f : float) : json :=
  if is_finite f then JFloat f else JNull.

(** A count as a JavaScript number. *)
Definition number_of_nat (n : nat) : float :=
  PrimFloat.of_uint63 (Uint63.of_Z (Z.of_nat n)).

(** ** [Date.prototype.toISOString] *)

Definition msPerDay : Z := 86400000.

Definition Day (t : Date) : Z := t / msPerDay.
Definition TimeWithinDay (t : Date) : Z := t mod msPerDay.

(** Civil date of a day number, proleptic Gregorian calendar:
    (year, month 1..12, day 1..31). *)
Definition civil_from_days (days : Z) : Z * Z * Z :=
  let z := days + 719468 in
  let era := z / 146097 in
  let doe := z mod 146097 in
  let yoe := (doe - doe / 1460 + doe / 36524 - doe / 146096) / 365 in
  let doy := doe - (365 * yoe + yoe / 4 - yoe / 100) in
  let mp := (5 * doy + 2) / 153 in
  let d := doy - (153 * mp + 2) / 5 + 1 in
  let m := if mp <? 10 then mp + 3 else mp - 9 in
  let y := yoe + era * 400 + (if m <=? 2 then 1 else 0) in
  (y, m, d).

Definition YearFromTime (t : Date) : Z := (civil_from_days (Day t)).1.1.
(** 1-based, unlike ECMAScript's [MonthFromTime]. *)
Definition MonthFromTime (t : Date) : Z := (civil_from_days (Day t)).1.2.
Definition DateFromTime (t : Date) : Z := (civil_from_days (Day t)).2.

Definition digit (n : Z) (k : Z) : ascii :=
  ascii_of_nat (48 + Z.to_nat ((n / 10 ^ k) mod 10)).

Definition pad2 (n : Z) (rest : string) : string :=
  String (digit n 1) (String (digit n 0) rest).

Definition pad3 (n : Z) (rest : string) : string :=
  String (digit n 2) (pad2 n rest).

Definition pad4 (n : Z) (rest : string) : string :=
  String (digit n 3) (pad3 n rest).

Definition pad6 (n : Z) (rest : string) : string :=
  String (digit n 5) (String (digit n 4) (pad4 n rest)).

(** Years 0 to 9999 are written with four digits, any other year with a
    sign and six digits. *)
Definition isoYear (y : Z) (rest : string) : string :=
  if (0 <=? y) && (y <=? 9999) then pad4 y rest
  else String (if y <? 0 then "-"%char else "+"%char) (pad6 (Z.abs y) rest).

Definition toISOString (t : Date) : string :=
  let w := TimeWithinDay t in
  isoYear (YearFromTime t)
    (String "-" (pad2 (MonthFromTime t)
    (String "-" (pad2 (DateFromTime t)
    (String "T" (pad2 (w / 3600000)
    (String ":" (pad2 (w / 60000 mod 60)
    (String ":" (pad2 (w / 1000 mod 60)
    (String "." (pad3 (w mod 1000) "Z")))))))))))).

(** [s.slice(0, n)] for [0 <= n]. *)
Definition slice0 (n : nat) (s : string) : string := substring 0 n s.

(** ** The Prisma queries the route issues *)

Record TicketWhere := mkWhere {
  where_status : option Status.t;
  where_userId : option (option Z);
  where_clientId : option Z
}.

Definition where_all : TicketWhere := mkWhere None None None.

Record Row (K C : Type) := mkRow { by_key : K; _count : C }.
Arguments mkRow {K C} _ _.
Arguments by_key {K C} _.
Arguments _count {K C} _.

Record CountAll := mkCountAll { _all : nat }.
Record CountAllStatus := mkCountAllStatus { cs_all : nat; cs_status : nat }.

Inductive query : Type -> Type :=
(** [ticket.findMany({ orderBy: { createdAt: "desc" }, take })] *)
| ticket_findMany_createdAt_desc (take : nat) : query (list Ticket)
(** [ticket.count({ where })] *)
| ticket_count (w : TicketWhere) : query nat
(** [ticket.groupBy({ by: ["createdAt"], _count: { _all }, orderBy: { createdAt: "asc" } })] *)
| ticket_groupBy_createdAt : query (list (Row Date CountAll))
(** [ticket.groupBy({ by: ["type"], _count: { _all } })] *)
| ticket_groupBy_type : query (list (Row string CountAll))
(** [ticket.groupBy({ by: ["userId"], _count: { _all } })] *)
| ticket_groupBy_userId : query (list (Row (option Z) CountAll))
(** [ticket.groupBy({ by: ["clientId"], _count: { _all, status } })] *)
| ticket_groupBy_clientId : query (list (Row Z CountAllStatus))
(** [person.findUnique({ where: { id } })] *)
| person_findUnique (id : Z) : query (option Person).

Inductive any_query : Type :=
| AnyQuery (X : Type) (q : query X).
Arguments AnyQuery {X} _.

(** ** Programs: awaiting queries, throwing, catching *)

Inductive exn :=
| StoreError (detail : string)
| TypeError (detail : string).

(** A program either returns, throws, or awaits a query; the awaited
    promise is fulfilled with a value or rejected with an exception. *)
Inductive prog (A : Type) : Type :=
| Ret (a : A)
| Throw (e : exn)
| Await {X : Type} (q : query X) (k : exn + X -> prog A).
Arguments Ret {A} _.
Arguments Throw {A} _.
Arguments Await {A X} _ _.

Fixpoint bind {A B : Type} (p : prog A) (f : A -> prog B) : prog B :=
  match p with
  | Ret a => f a
  | Throw e => Throw e
  | Await q k => Await q (fun r => bind (k r) f)
  end.

#[global] Instance prog_ret : MRet prog := @Ret.
#[global] Instance prog_bind : MBind prog := fun A B f p => bind p f.

(** [await q]: a rejection becomes a throw at the await. *)
Definition await {X : Type} (q : query X) : prog X :=
  Await q (fun r => match r with inl e => Throw e | inr x => Ret x end).

(** [try { p } catch (error) { h error }] *)
Fixpoint try_catch {A : Type} (p : prog A) (h : exn -> prog A) : prog A :=
  match p with
  | Ret a => Ret a
  | Throw e => h e
  | Await q k => Await q (fun r => try_catch (k r) h)
  end.

(** ** Running a program *)

Inductive outcome (A : Type) : Type :=
| Returned (a : A)
| Raised (e : exn).
Arguments Returned {A} _.
Arguments Raised {A} _.

(** The store as the program sees it: the answer to the [n]-th query. *)
Definition oracle := nat -> forall X : Type, query X -> exn + X.

Definition rejected {X : Type} (r : exn + X) : bool :=
  match r with inl _ => true | inr _ => false end.

(** [run o n p]: the outcome of [p] when its queries are number [n],
    [n + 1], ..., and the log of the queries made, each with whether it
    was rejected. *)
Fixpoint run {A : Type} (o : oracle) (n : nat) (p : prog A)
  : outcome A * list (any_query * bool) :=
  match p with
  | Ret a => (Returned a, [])
  | Throw e => (Raised e, [])
  | Await q k =>
      let r := o n _ q in
      let res := run o (S n) (k r) in
      (res.1, (AnyQuery q, rejected r) :: res.2)
  end.

Definition some_rejected (log : list (any_query * bool)) : bool :=
  existsb snd log.

(** ** Reference semantics of the queries on a snapshot *)

Definition where_matches (w : TicketWhere) (t : Ticket) : bool :=
  match where_status w with None => true | Some s => bool_decide (status t = s) end
  && match where_userId w with None => true | Some u => bool_decide (userId t = u) end
  && match where_clientId w with None => true | Some c => bool_decide (clientId t = c) end.

Definition count_where (w : TicketWhere) (l : list Ticket) : nat :=
  length (filter (fun t => where_matches w t) l).

(** Insertion sort, stable, for a boolean order. *)
Fixpoint insert_by {A : Type} (leb : A -> A -> bool) (x : A) (l : list A) : list A :=
  match l with
  | [] => [x]
  | y :: l' => if leb x y then x :: l else y :: insert_by leb x l'
  end.

Fixpoint sort_by {A : Type} (leb : A -> A -> bool) (l : list A) : list A :=
  match l with
  | [] => []
  | x :: l' => insert_by leb x (sort_by leb l')
  end.

(** The order of [orderBy: { createdAt: "desc" }]. Among tickets created
    at the same time the database is free to choose; the sort keeps them
    in table order, and the results below hold for any choice. *)
Definition newer_or_same (a b : Ticket) : bool := createdAt b <=? createdAt a.

(** The distinct values of a column; one group per value. A [groupBy]
    without [orderBy] leaves the order of the groups to the database:
    this is one such order, and the results below do not depend on it. *)
Definition distinct {K : Type} `{EqDecision K} (key : Ticket -> K) (l : list Ticket) : list K :=
  remove_dups (key <$> l).

Definition count_key {K : Type} `{EqDecision K} (key : Ticket -> K) (k : K) (l : list Ticket) : nat :=
  length (filter (fun t => key t = k) l).

Definition group_row {K : Type} `{EqDecision K} (key : Ticket -> K) (l : list Ticket) (k : K)
  : Row K CountAll :=
  mkRow k (mkCountAll (count_key key k l)).

Definition answer (s : Store) {X : Type} (q : query X) : X :=
  match q in query X return X with
  | ticket_findMany_createdAt_desc n => take n (sort_by newer_or_same (tickets s))
  | ticket_count w => count_where w (tickets s)
  | ticket_groupBy_createdAt =>
      group_row createdAt (tickets s) <$> sort_by Z.leb (distinct createdAt (tickets s))
  | ticket_groupBy_type =>
      group_row type (tickets s) <$> distinct type (tickets s)
  | ticket_groupBy_userId =>
      group_row userId (tickets s) <$> distinct userId (tickets s)
  | ticket_groupBy_clientId =>
      (fun c => let n := count_key clientId c (tickets s) in
                mkRow c (mkCountAllStatus n n)) <$> distinct clientId (tickets s)
  | person_findUnique i => persons s !! i
  end.

(** A store that answers every query. *)
Definition db (s : Store) : oracle := fun _ X q => inr (answer s q).

(** A store that rejects the queries numbered in [bad] and answers the others. *)
Definition flaky_db (s : Store) (bad : list nat) : oracle :=
  fun n X q =>
    if bool_decide (n ∈ bad) then inl (StoreError "connection lost")
    else inr (answer s q).

(** ** The route handlers *)

(** Modelled from the spec: the Prisma schema is not part of the
    sources at hand; the columns of a ticket are those of the data
    model.  [JSON.stringify] writes a [Date] through [toISOString]. *)
Definition ticket_json (t : Ticket) : json :=
  JObj [("id", JStr (ticket_id t));
        ("title", JStr (title t));
        ("description", JStr (description t));
        ("status", JStr (status t));
        ("type", JStr (type t));
        ("priority", JStr (priority t));
        ("createdAt", JStr (toISOString (createdAt t)));
        ("updatedAt", JStr (toISOString (updatedAt t)));
        ("userId", match userId t with Some u => JNum u | None => JNull end);
        ("clientId", JNum (clientId t))].

Definition getRecentTickets : prog Response :=
  try_catch
    (tickets ← await (ticket_findMany_createdAt_desc 5);
     mret (json_response 200 (JArr (ticket_json <$> tickets))))
    (fun error =>
     mret (json_response 500
             (message_body "Hubo un error al obtener los tickets recientes"))).

Definition summary_json (totalTickets pendingTickets completedTickets : nat) : json :=
  JObj [("totalTickets", JNum (Z.of_nat totalTickets));
        ("pendingTickets", JNum (Z.of_nat pendingTickets));
        ("completedTickets", JNum (Z.of_nat completedTickets))].

Definition where_status_is (s : Status.t) : TicketWhere := mkWhere (Some s) None None.

Definition getSummary : prog Response :=
  try_catch
    (totalTickets ← await (ticket_count where_all);
     pendingTickets ← await (ticket_count (where_status_is Status.Open));
     completedTickets ← await (ticket_count (where_status_is Status.Closed));
     mret (json_response 200 (summary_json totalTickets pendingTickets completedTickets)))
    (fun error =>
     mret (json_response 500
             (message_body "Hubo un error al obtener el resumen de tickets"))).

(** [(completedTickets / totalTickets) * 100] on binary64 numbers. *)
Definition resolutionRate (completedTickets totalTickets : nat) : float :=
  PrimFloat.mul
    (PrimFloat.div (number_of_nat completedTickets) (number_of_nat totalTickets))
    (number_of_nat 100).

Definition getResolutionRate : prog Response :=
  try_catch
    (totalTickets ← await (ticket_count where_all);
     completedTickets ← await (ticket_count (where_status_is Status.Closed));
     let resolutionRate := resolutionRate completedTickets totalTickets in
     mret (json_response 200
             (JObj [("resolutionRate", json_of_number resolutionRate)])))
    (fun error =>
     mret (json_response 500
             (message_body "Hubo un error al obtener la tasa de resolución"))).

Record MonthBucket := mkBucket { month : string; bucket_tickets : nat }.

(** The accumulator object of the [reduce]: its keys in insertion order
    (a month key is never an array index, so [Object.values] keeps that
    order). *)
Definition acc_has (k : string) (acc : list (string * MonthBucket)) : bool :=
  bool_decide (k ∈ acc.*1).

Fixpoint acc_add (k : string) (n : nat) (acc : list (string * MonthBucket))
  : list (string * MonthBucket) :=
  match acc with
  | [] => []
  | (k', b) :: acc' =>
      if bool_decide (k' = k)
      then (k', mkBucket (month b) (bucket_tickets b + n)) :: acc'
      else (k', b) :: acc_add k n acc'
  end.

Definition month_key (d : Date) : string := slice0 7 (toISOString d).

Definition monthly_step (acc : list (string * MonthBucket)) (item : Row Date CountAll)
  : list (string * MonthBucket) :=
  let month := month_key (by_key item) in
  let acc := if acc_has month acc then acc else acc ++ [(month, mkBucket month 0)] in
  acc_add month (_all (_count item)) acc.

Definition bucket_json (b : MonthBucket) : json :=
  JObj [("month", JStr (month b)); ("tickets", JNum (Z.of_nat (bucket_tickets b)))].

Definition getMonthlySummary : prog Response :=
  try_catch
    (monthlyData ← await ticket_groupBy_createdAt;
     let monthlySummary := foldl monthly_step [] monthlyData in
     mret (json_response 200 (JArr (bucket_json <$> monthlySummary.*2))))
    (fun error =>
     mret (json_response 500
             (message_body "Hubo un error al obtener el resumen mensual de tickets"))).

Record TechnicianRow := mkTech {
  tech_name : string; tech_total : nat; tech_completed : nat; tech_pending : nat
}.

Definition technician_json (r : TechnicianRow) : json :=
  JObj [("name", JStr (tech_name r));
        ("total", JNum (Z.of_nat (tech_total r)));
        ("completed", JNum (Z.of_nat (tech_completed r)));
        ("pending", JNum (Z.of_nat (tech_pending r)))].

Definition full_name (p : Person) : string := firstName p +:+ " " +:+ lastName p.

Definition where_user (u : option Z) (s : Status.t) : TicketWhere :=
  mkWhere (Some s) (Some u) None.

(** The callbacks of [Promise.all(items.map(async ...))] are run one
    after the other; the array of results is in the order of the items
    either way, and one rejection rejects the whole. *)
Definition technician_item (item : Row (option Z) CountAll) : prog (option TechnicianRow) :=
  user ← match by_key item with
         | Some i => await (person_findUnique i)
         | None => Throw (StoreError "findUnique: id must not be null")
         end;
  match user with
  | None => mret None
  | Some user =>
      completedTickets ← await (ticket_count (where_user (by_key item) Status.Closed));
      pendingTickets ← await (ticket_count (where_user (by_key item) Status.Open));
      mret (Some (mkTech (full_name user) (_all (_count item))
                         completedTickets pendingTickets))
  end.

Definition getTechnicianPerformance : prog Response :=
  try_catch
    (monthlySummaryRaw ← await ticket_groupBy_userId;
     let monthlySummary := filter (fun item => by_key item ≠ None) monthlySummaryRaw in
     result ← mapM technician_item monthlySummary;
     mret (json_response 200 (JArr (technician_json <$> omap id result))))
    (fun error =>
     mret (json_response 500
             (message_body "Hubo un error al obtener el rendimiento de los técnicos"))).

Record CompanyRow := mkCompany {
  company_name : string; company_completed : nat; company_pending : nat
}.

Definition company_json (r : CompanyRow) : json :=
  JObj [("name", JStr (company_name r));
        ("completed", JNum (Z.of_nat (company_completed r)));
        ("pending", JNum (Z.of_nat (company_pending r)))].

Definition where_client (c : Z) (s : Status.t) : TicketWhere :=
  mkWhere (Some s) None (Some c).

Definition company_item (item : Row Z CountAllStatus) : prog CompanyRow :=
  client ← await (person_findUnique (by_key item));
  completedTickets ← await (ticket_count (where_client (by_key item) Status.Closed));
  pendingTickets ← await (ticket_count (where_client (by_key item) Status.Open));
  mret (mkCompany (match client with Some c => full_name c | None => "Unknown" end)
                  completedTickets pendingTickets).

Definition getCompanySummary : prog Response :=
  try_catch
    (ticketsByCompany ← await ticket_groupBy_clientId;
     result ← mapM company_item ticketsByCompany;
     mret (json_response 200 (JArr (company_json <$> result))))
    (fun error =>
     mret (json_response 500
             (message_body "Hubo un error al obtener el resumen por empresa"))).

Section WithMetadata.

Variable ticketMetadata : Metadata.

(** Reading [.text] of [undefined] throws a [TypeError]. An inherited
    member has no [text], [color] or [icon]: the three are [undefined]
    and [JSON.stringify] leaves them out. *)
Definition category_item (item : Row string CountAll) : prog json :=
  match get_member (metadata_type ticketMetadata) (by_key item) with
  | Undefined => Throw (TypeError "Cannot read properties of undefined (reading 'text')")
  | Inherited =>
      mret (JObj [("_count", JObj [("_all", JNum (Z.of_nat (_all (_count item))))])])
  | OwnEntry entry =>
      mret (JObj [("type", JStr (text entry));
                  ("_count", JObj [("_all", JNum (Z.of_nat (_all (_count item))))]);
                  ("color", JStr (color entry));
                  ("icon", JStr (icon entry))])
  end.

Definition getByCategory : prog Response :=
  try_catch
    (ticketsByCategory ← await ticket_groupBy_type;
     result ← mapM category_item ticketsByCategory;
     mret (json_response 200 (JArr result)))
    (fun error =>
     mret (json_response 500
             (message_body "Hubo un error al obtener el desglose por categoría"))).

(** [session] is how the promise of [getServerSession] settled: rejected
    with an error, or resolved to a session or to [null]. It is awaited
    outside every [try], so its rejection is the rejection of [GET].
    [route] is what [searchParams.get("route")] returned. *)
Definition GET {Session : Type} (session : exn + option Session) (route : option string)
  : prog Response :=
  match session with
  | inl error => Throw error
  | inr None => mret (json_response 401 (message_body "Unauthorized"))
  | inr (Some _) =>
      if bool_decide (route = Some "summary") then getSummary
      else if bool_decide (route = Some "resolution-rate") then getResolutionRate
      else if bool_decide (route = Some "monthly-summary") then getMonthlySummary
      else if bool_decide (route = Some "by-category") then getByCategory
      else if bool_decide (route = Some "technician-performance") then getTechnicianPerformance
      else if bool_decide (route = Some "company-summary") then getCompanySummary
      else if bool_decide (route = Some "recent-tickets") then getRecentTickets
      else mret (json_response 400 (message_body "Invalid route"))
  end.

(** The seven reports: route name, function, message of its [catch]. *)
Definition aggregations : list (string * prog Response * string) :=
  [("summary", getSummary, "Hubo un error al obtener el resumen de tickets");
   ("resolution-rate", getResolutionRate, "Hubo un error al obtener la tasa de resolución");
   ("monthly-summary", getMonthlySummary,
      "Hubo un error al obtener el resumen mensual de tickets");
   ("by-category", getByCategory, "Hubo un error al obtener el desglose por categoría");
   ("technician-performance", getTechnicianPerformance,
      "Hubo un error al obtener el rendimiento de los técnicos");
   ("company-summary", getCompanySummary, "Hubo un error al obtener el resumen por empresa");
   ("recent-tickets", getRecentTickets, "Hubo un error al obtener los tickets recientes")].

End WithMetadata.


(** ** Definitions used to state the properties *)

Definition routes : list string :=
  ["summary"; "resolution-rate"; "monthly-summary"; "by-category";
   "technician-performance"; "company-summary"; "recent-tickets"].

(** The outcome of a program on a store that answers every query. *)
Fixpoint eval {A : Type} (s : Store) (p : prog A) : outcome A :=
  match p with
  | Ret a => Returned a
  | Throw e => Raised e
  | Await q k => eval s (k (inr (answer s q)))
  end.

(** A program that lets every rejection of a query through as a throw. *)
Inductive propagates {A : Type} : prog A -> Prop :=
| propagates_Ret a : propagates (Ret a)
| propagates_Throw e : propagates (Throw e)
| propagates_Await X (q : query X) k :
    (forall e, k (inl e) = Throw e) ->
    (forall x, propagates (k (inr x))) ->
    propagates (Await q k).

(** A [try] around such a program, whose [catch] returns [r]. *)
Definition guarded (f : prog Response) (r : Response) : Prop :=
  exists p, propagates p /\ f = try_catch p (fun _ => Ret r).

(** The entry the by-category report writes for a type, its catalog
    entry and its number of tickets. *)
Definition category_json (g : string * MetaEntry * nat) : json :=
  JObj [("type", JStr (text g.1.2));
        ("_count", JObj [("_all", JNum (Z.of_nat g.2))]);
        ("color", JStr (color g.1.2));
        ("icon", JStr (icon g.1.2))].

(** The row the company summary writes for a client. *)
Definition company_group (s : Store) (c : Z) : CompanyRow :=
  mkCompany
    (match persons s !! c with Some p => full_name p | None => "Unknown" end)
    (length (filter (fun t => clientId t = c /\ status t = Status.Closed) (tickets s)))
    (length (filter (fun t => clientId t = c /\ status t = Status.Open) (tickets s))).

(** The row the technician report writes for an assignee and their
    person record. *)
Definition technician_group (s : Store) (g : Z * Person) : TechnicianRow :=
  mkTech
    (full_name g.2)
    (length (filter (fun t => userId t = Some g.1) (tickets s)))
    (length (filter (fun t => userId t = Some g.1 /\ status t = Status.Closed) (tickets s)))
    (length (filter (fun t => userId t = Some g.1 /\ status t = Status.Open) (tickets s))).

(** The JSON object of the company summary for a client: the name of
    the client's person record, or "Unknown" without one, and the
    numbers of the client's tickets with status Closed and Open. *)
Definition company_entry (s : Store) (c : Z) : json :=
  JObj [("name",
         JStr (match persons s !! c with
               | Some p => firstName p +:+ " " +:+ lastName p
               | None => "Unknown"
               end));
        ("completed",
         JNum (Z.of_nat (length (filter (fun t => clientId t = c /\ status t = "Closed")
                                        (tickets s)))));
        ("pending",
         JNum (Z.of_nat (length (filter (fun t => clientId t = c /\ status t = "Open")
                                        (tickets s)))))].

(** The JSON object of the technician report for an assignee and their
    person record: the full name, and the numbers of the assignee's
    tickets, of those with status Closed and of those with status Open. *)
Definition technician_entry (s : Store) (g : Z * Person) : json :=
  JObj [("name", JStr (firstName g.2 +:+ " " +:+ lastName g.2));
        ("total",
         JNum (Z.of_nat (length (filter (fun t => userId t = Some g.1) (tickets s)))));
        ("completed",
         JNum (Z.of_nat (length (filter (fun t => userId t = Some g.1 /\ status t = "Closed")
                                        (tickets s)))));
        ("pending",
         JNum (Z.of_nat (length (filter (fun t => userId t = Some g.1 /\ status t = "Open")
                                        (tickets s)))))].

(** An assignee together with their person record, when there is one. *)
Definition resolve_assignee (s : Store) (u : option Z) : option (Z * Person) :=
  i ← u; p ← persons s !! i; Some (i, p).

(** The calendar month (UTC) of a time value, and its [YYYY-MM] label. *)
Definition utc_month (d : Date) : Z * Z := (YearFromTime d, MonthFromTime d).

Definition month_label (ym : Z * Z) : string :=
  pad4 ym.1 (String "-" (pad2 ym.2 "")).

Definition month_in_range (ym : Z * Z) : Prop :=
  0 <= ym.1 <= 9999 /\ 1 <= ym.2 <= 12.

(** The bucket of a month key: the key and the number of tickets whose
    creation time has that key. *)
Definition key_bucket (s : Store) (k : string) : MonthBucket :=
  mkBucket k (length (filter (fun t => month_key (createdAt t) = k) (tickets s))).

(** The JSON object of the monthly summary for a month key, and the one
    for a calendar month: the key or the [YYYY-MM] label, and the number
    of tickets created under it. *)
Definition key_entry_json (s : Store) (k : string) : json :=
  JObj [("month", JStr k);
        ("tickets",
         JNum (Z.of_nat (length (filter (fun t => month_key (createdAt t) = k)
                                        (tickets s)))))].

Definition month_entry (s : Store) (ym : Z * Z) : json :=
  JObj [("month", JStr (month_label ym));
        ("tickets",
         JNum (Z.of_nat (length (filter (fun t => utc_month (createdAt t) = ym)
                                        (tickets s)))))].

(** Sum, over the timestamps [ds] with month key [k], of their group counts. *)
Definition key_total (cnt : Date -> nat) (ds : list Date) (k : string) : nat :=
  sum_list_with cnt (filter (fun d => month_key d = k) ds).

Definition key_entry (cnt : Date -> nat) (ds : list Date) (k : string)
  : string * MonthBucket :=
  (k, mkBucket k (key_total cnt ds k)).

Definition date_row (cnt : Date -> nat) (d : Date) : Row Date CountAll :=
  mkRow d (mkCountAll (cnt d)).

(** The accumulator after the groups of the timestamps [ds]. *)
Definition buckets_of (cnt : Date -> nat) (ds : list Date)
    (acc : list (string * MonthBucket)) : Prop :=
  exists ks, acc = key_entry cnt ds <$> ks /\ NoDup ks /\
             forall k, k ∈ ks <-> exists d, d ∈ ds /\ month_key d = k.

(** ** Sample data *)

Definition sample_ticket (i : string) (st ty : string) (created : Date)
    (u : option Z) (c : Z) : Ticket :=
  mkTicket i "Printer" "Does not print" st ty "High" created created u c.

Definition ana : Person := mkPerson 1 "Ana" "Diaz" "ana@example.org" None "555-0101".
Definition luis : Person := mkPerson 10 "Luis" "Mora" "luis@example.org" None "555-0110".

Definition sample_persons : gmap Z Person := <[1 := ana]> (<[10 := luis]> ∅).

(** Created on 2024-01-05, 2024-01-20 and 2024-02-01. *)
Definition three_tickets : Store :=
  mkStore
    [sample_ticket "t1" "Open" "Bug" 1704412800000 (Some 1) 10;
     sample_ticket "t2" "Closed" "Bug" 1705708800000 (Some 1) 11;
     sample_ticket "t3" "InProgress" "Feature" 1706745600000 None 10]
    sample_persons.

Definition six_tickets : Store :=
  mkStore
    (tickets three_tickets ++
     [sample_ticket "t4" "Closed" "Bug" 1705708800000 (Some 2) 10;
      sample_ticket "t5" "Open" "Feature" 1709210096789 (Some 1) 11;
      sample_ticket "t6" "Open" "Bug" 1704412800001 None 10])
    sample_persons.

(** Created on 10000-01-05 and 10000-02-01. *)
Definition year_10000_tickets : Store :=
  mkStore
    [sample_ticket "t1" "Open" "Bug" 253402646400000 None 10;
     sample_ticket "t2" "Open" "Bug" 253404979200000 None 10]
    sample_persons.

Definition no_tickets : Store := mkStore [] sample_persons.

(** One ticket whose type is the name of an inherited member. *)
Definition constructor_ticket : Store :=
  mkStore [sample_ticket "t1" "Open" "constructor" 1704412800000 None 10]
          sample_persons.

Definition sample_metadata : Metadata :=
  mkMetadata (<["Bug" := mkMeta "Error" "red" "bug"]>
             (<["Feature" := mkMeta "Mejora" "blue" "star"]> ∅)).

Definition bug_only_metadata : Metadata :=
  mkMetadata (<["Bug" := mkMeta "Error" "red" "bug"]> ∅).

(** ** Further definitions used to state properties *)

(** Every value a program can return satisfies [P]. *)
Inductive returns {A : Type} (P : A -> Prop) : prog A -> Prop :=
| returns_Ret a : P a -> returns P (Ret a)
| returns_Throw e : returns P (Throw e)
| returns_Await X (q : query X) k :
    (forall r, returns P (k r)) -> returns P (Await q k).

(** A program that throws only when a query it awaits is rejected, and
    returns only values that satisfy [P]. *)
Inductive settles {A : Type} (P : A -> Prop) : prog A -> Prop :=
| settles_Ret a : P a -> settles P (Ret a)
| settles_Await X (q : query X) k :
    (forall e, k (inl e) = Throw e) ->
    (forall x, settles P (k (inr x))) ->
    settles P (Await q k).

(** The body of an aggregation lets rejections through, throws for no
    other reason, and returns a 200; the [catch] returns [r]. *)
Definition answers_200 (f : prog Response) (r : Response) : Prop :=
  exists p, settles (fun resp => resp_status resp = 200) p /\
            f = try_catch p (fun _ => Ret r).

(** The queries a program makes on a store that answers every query. *)
Fixpoint trace {A : Type} (s : Store) (p : prog A) : list any_query :=
  match p with
  | Ret _ => []
  | Throw _ => []
  | Await q k => AnyQuery q :: trace s (k (inr (answer s q)))
  end.

Definition json_headers : list (string * string) :=
  [("Content-Type", "application/json")].

(** The status and headers of a response of an aggregation. *)
Definition report_response (r : Response) : Prop :=
  resp_headers r = json_headers /\ (resp_status r = 200 \/ resp_status r = 500).

(** The ticket has an assignee, and the assignee has a person record. *)
Definition has_technician (s : Store) (t : Ticket) : Prop :=
  is_Some (resolve_assignee s (userId t)).

(** The keys of the accumulator after one more month key. *)
Definition keys_step (ks : list string) (k : string) : list string :=
  if bool_decide (k ∈ ks) then ks else ks ++ [k].

(** Calendar months in chronological order. *)
Definition month_lt (a b : Z * Z) : Prop :=
  a.1 < b.1 \/ (a.1 = b.1 /\ a.2 < b.2).

(** The number of the month of a day, counted from year 0. *)
Definition month_index (days : Z) : Z :=
  12 * (civil_from_days days).1.1 + (civil_from_days days).1.2.

(** The year of the era and the month of the year (from March) of a
    day of the era, as [civil_from_days] computes them. *)
Definition year_of_era (doe : Z) : Z :=
  (doe - doe / 1460 + doe / 36524 - doe / 146096) / 365.

Definition month_of_year (doe : Z) : Z :=
  (5 * (doe - (365 * year_of_era doe + year_of_era doe / 4 - year_of_era doe / 100)) + 2)
  / 153.

(** The group the by-category report writes for a type: the type, its
    catalog entry and its number of tickets. *)
Definition category_group (md : Metadata) (s : Store) (ty : string)
  : string * MetaEntry * nat :=
  (ty, default (mkMeta "" "" "") (metadata_type md !! ty),
   length (filter (fun t => type t = ty) (tickets s))).

(** ** The ticket card ([ticket-info.tsx]) *)

Module TicketInfo.

(** The [user] and [client] objects of [TicketInfoProps]. *)
Record Contact := mkContact {
  firstName : string;
  lastName : string;
  email : string;
  avatar : option string;
  phone : string
}.

Record Data := mkData {
  id : string;
  title : string;
  description : string;
  createdAt : string;
  updatedAt : string;
  status : string;
  type : string;
  priority : string;
  user : option Contact;
  client : Contact
}.

(** [role] is ["User"] or ["Client"]; the component compares it with ["User"]. *)
Record Props := mkProps { data : Data; role : string }.

(** The object handed to the message button; [phone] is [undefined]
    when it is read through [user?.phone] of a missing user. *)
Record WhatsappData := mkWhatsapp {
  wa_name : string;
  wa_phone : option string;
  wa_title : string;
  wa_id : string
}.

(** An operand of [+] next to a string: [undefined] is written ["undefined"]. *)
Definition to_string (v : option string) : string := default "undefined" v.

Definition whatsappData (props : Props) : WhatsappData :=
  {| wa_name :=
       if bool_decide (role props = "User")
       then to_string (firstName <$> user (data props)) +:+ " "
            +:+ to_string (lastName <$> user (data props))
       else firstName (client (data props)) +:+ " " +:+ lastName (client (data props));
     wa_phone :=
       if bool_decide (role props = "User")
       then Some (phone (client (data props)))
       else phone <$> user (data props);
     wa_title := title (data props);
     wa_id := id (data props) |}.

(** [s.split(" ")]: the pieces between the spaces; a string of [n]
    spaces has [n + 1] empty pieces. Characters stand for the code units
    of the JavaScript string. *)
Fixpoint split_space (s : string) : list string :=
  match s with
  | EmptyString => [EmptyString]
  | String c r =>
      if Ascii.eqb c " " then EmptyString :: split_space r
      else match split_space r with
           | [] => [String c EmptyString]
           | w :: ws => String c w :: ws
           end
  end.

(** [n[0]]: the first character, [undefined] for the empty string. *)
Definition char0 (n : string) : option string :=
  match n with
  | EmptyString => None
  | String c _ => Some (String c EmptyString)
  end.

(** [parts.join("")]: an [undefined] element is written as nothing. *)
Definition join_empty (parts : list (option string)) : string :=
  foldr (fun p acc => default EmptyString p +:+ acc) EmptyString parts.

(** [name.split(" ").map((n) => n[0]).join("")] *)
Definition initials (name : string) : string :=
  join_empty (char0 <$> split_space name).









Definition full_name (c : Contact) : string := firstName c +:+ " " +:+ lastName c.

(** No space among the characters of a string. *)
Fixpoint no_space (s : string) : Prop :=
  match s with
  | EmptyString => True
  | String c r => c <> " "%char /\ no_space r
  end.

(** Only spaces among the characters of a string. *)
Fixpoint only_spaces (s : string) : Prop :=
  match s with
  | EmptyString => True
  | String c r => c = " "%char /\ only_spaces r
  end.

(** [words.join(" ")] *)
Fixpoint join_space (words : list string) : string :=
  match words with
  | [] => EmptyString
  | [w] => w
  | w :: ws => w +:+ " " +:+ join_space ws
  end.

Definition sample_props (r : string) (u : option Contact) : Props :=
  mkProps
    (mkData "42" "Printer" "Does not print" "2024-01-05" "2024-01-06"
            "Open" "Bug" "High" u
            (mkContact "Luis Alberto" "Mora" "luis@example.org" None "555-0110"))
    r.

Definition sample_user : Contact :=
  mkContact "Ana" "Diaz" "ana@example.org" None "555-0101".

End TicketInfo.

(** * Properties *)

(** ** [toISOString] on sample dates *)

Example toISOString_2024_01_05 :
  toISOString 1704412800000 = "2024-01-05T00:00:00.000Z".
Proof. vm_compute. reflexivity. Qed.

Example toISOString_epoch_minus_1 :
  toISOString (-1) = "1969-12-31T23:59:59.999Z".
Proof. vm_compute. reflexivity. Qed.

Example toISOString_leap_day :
  toISOString 1709210096789 = "2024-02-29T12:34:56.789Z".
Proof. vm_compute. reflexivity. Qed.

Example toISOString_year_10000 :
  toISOString 253402300800000 = "+010000-01-01T00:00:00.000Z".
Proof. vm_compute. reflexivity. Qed.


(** ** Running programs on a store that answers *)

Lemma run_db {A : Type} (s : Store) (p : prog A) :
  forall n, (run (db s) n p).1 = eval s p.
Proof. induction p as [a|e|X q k IH]; intros n; simpl; [done..|apply IH]. Qed.

Lemma eval_bind {A B : Type} (s : Store) (p : prog A) (f : A -> prog B) :
  eval s (bind p f) =
  match eval s p with Returned a => eval s (f a) | Raised e => Raised e end.
Proof. induction p as [a|e|X q k IH]; simpl; [done..|apply IH]. Qed.

Lemma eval_mbind {A B : Type} (s : Store) (p : prog A) (f : A -> prog B) :
  eval s (p ≫= f) =
  match eval s p with Returned a => eval s (f a) | Raised e => Raised e end.
Proof. apply eval_bind. Qed.

Lemma eval_try_catch {A : Type} (s : Store) (p : prog A) (h : exn -> prog A) :
  eval s (try_catch p h) =
  match eval s p with Returned a => Returned a | Raised e => eval s (h e) end.
Proof. induction p as [a|e|X q k IH]; simpl; [done..|apply IH]. Qed.

Lemma eval_mapM {A B : Type} (s : Store) (f : A -> prog B) (g : A -> B) (l : list A) :
  (forall x, x ∈ l -> eval s (f x) = Returned (g x)) ->
  eval s (mapM f l) = Returned (g <$> l).
Proof.
  induction l as [|x l IH]; intros Hf; [done|].
  cbn [mapM]. rewrite eval_mbind, Hf by left.
  rewrite eval_mbind, IH; [done|]. intros y Hy. apply Hf. by right.
Qed.

Lemma eval_mapM_raised {A B : Type} (s : Store) (f : A -> prog B) (l : list A) x :
  x ∈ l -> (exists e, eval s (f x) = Raised e) ->
  exists e, eval s (mapM f l) = Raised e.
Proof.
  intros Hx [e He]. induction l as [|y l IH]; [by apply elem_of_nil in Hx|].
  cbn [mapM]. rewrite eval_mbind.
  destruct (eval s (f y)) as [b|e'] eqn:Hy; [|by eexists].
  rewrite eval_mbind. apply elem_of_cons in Hx as [->|Hx]; [congruence|].
  destruct (IH Hx) as [e'' ->]. by eexists.
Qed.

(** ** Programs that let every rejection through *)

Lemma propagates_await {X : Type} (q : query X) : propagates (await q).
Proof. constructor; [done|]. intros x. constructor. Qed.

Lemma propagates_bind {A B : Type} (p : prog A) (f : A -> prog B) :
  propagates p -> (forall a, propagates (f a)) -> propagates (bind p f).
Proof.
  intros Hp Hf. induction Hp as [a|e|X q k Hk Hx IH]; simpl; [done|constructor|].
  constructor; [|done]. intros e. by rewrite Hk.
Qed.

Lemma propagates_mbind {A B : Type} (p : prog A) (f : A -> prog B) :
  propagates p -> (forall a, propagates (f a)) -> propagates (p ≫= f).
Proof. apply propagates_bind. Qed.

Lemma propagates_mapM {A B : Type} (f : A -> prog B) (l : list A) :
  (forall x, propagates (f x)) -> propagates (mapM f l).
Proof.
  intros Hf. induction l as [|x l IH]; [constructor|].
  cbn [mapM]. apply propagates_mbind; [done|]. intros b.
  apply propagates_mbind; [done|]. intros bs. constructor.
Qed.

Lemma run_guarded (f : prog Response) (r : Response) (o : oracle) :
  guarded f r ->
  forall n, exists resp,
    (run o n f).1 = Returned resp /\
    (some_rejected (run o n f).2 = true -> resp = r).
Proof.
  intros (p & Hp & ->). induction Hp as [a|e|X q k Hk Hx IH]; intros n; simpl.
  - exists a. by split.
  - exists r. by split.
  - destruct (o n X q) as [e|x] eqn:Ho; simpl.
    + rewrite Hk. simpl. exists r. by split.
    + apply IH.
Qed.

Ltac propagates_tac :=
  repeat first
    [ apply propagates_await
    | apply propagates_Ret
    | apply propagates_Throw
    | apply propagates_mapM; intros ?
    | apply propagates_mbind; [|intros ?]
    | progress unfold category_item
    | match goal with |- propagates (match ?x with _ => _ end) => destruct x end ].

Ltac guarded_tac := eexists; split; [|reflexivity]; propagates_tac.

Lemma getRecentTickets_guarded :
  guarded getRecentTickets
    (json_response 500 (message_body "Hubo un error al obtener los tickets recientes")).
Proof. guarded_tac. Qed.

Lemma getSummary_guarded :
  guarded getSummary
    (json_response 500 (message_body "Hubo un error al obtener el resumen de tickets")).
Proof. guarded_tac. Qed.

Lemma getResolutionRate_guarded :
  guarded getResolutionRate
    (json_response 500 (message_body "Hubo un error al obtener la tasa de resolución")).
Proof. guarded_tac. Qed.

Lemma getMonthlySummary_guarded :
  guarded getMonthlySummary
    (json_response 500
       (message_body "Hubo un error al obtener el resumen mensual de tickets")).
Proof. guarded_tac. Qed.

Lemma getByCategory_guarded (md : Metadata) :
  guarded (getByCategory md)
    (json_response 500 (message_body "Hubo un error al obtener el desglose por categoría")).
Proof. guarded_tac. Qed.

Lemma getTechnicianPerformance_guarded :
  guarded getTechnicianPerformance
    (json_response 500
       (message_body "Hubo un error al obtener el rendimiento de los técnicos")).
Proof. guarded_tac. Qed.

Lemma getCompanySummary_guarded :
  guarded getCompanySummary
    (json_response 500 (message_body "Hubo un error al obtener el resumen por empresa")).
Proof. guarded_tac. Qed.

(** ** The router *)

Lemma aggregations_routes (md : Metadata) : (aggregations md).*1.*1 = routes.
Proof. reflexivity. Qed.

Lemma GET_dispatch {Session : Type} (md : Metadata) (x : Session) name f msg :
  (name, f, msg) ∈ aggregations md -> GET md (inr (Some x)) (Some name) = f.
Proof.
  unfold aggregations. rewrite !elem_of_cons, elem_of_nil.
  intros H. repeat destruct H as [H|H]; try done; by simplify_eq.
Qed.

Lemma GET_default {Session : Type} (md : Metadata) (x : Session) (route : option string) :
  (forall r, route = Some r -> r ∉ routes) ->
  GET md (inr (Some x)) route = Ret (json_response 400 (message_body "Invalid route")).
Proof.
  intros Hr. unfold GET.
  repeat (case_bool_decide as Hd;
          [exfalso; apply (Hr _ Hd); unfold routes; set_solver|clear Hd]).
  done.
Qed.

(** C7: when [getServerSession] resolved to no session the router
    answers 401 [{ message: "Unauthorized" }] and makes no store query;
    with a session and a route selector that is not one of the seven
    names it answers 400 [{ message: "Invalid route" }] and makes no
    store query; a store query is made only with a session and one of
    the seven names, and then the router is the aggregation of that name. *)
Theorem GET_guards_aggregations {Session : Type} (md : Metadata)
    (session : option Session) (route : option string) (o : oracle) (n : nat) :
  (session = None ->
   run o n (GET md (inr session) route)
   = (Returned {| resp_status := 401;
                  resp_headers := [("Content-Type", "application/json")];
                  resp_body := JObj [("message", JStr "Unauthorized")] |}, [])) /\
  (session <> None -> (forall r, route = Some r -> r ∉ routes) ->
   run o n (GET md (inr session) route)
   = (Returned {| resp_status := 400;
                  resp_headers := [("Content-Type", "application/json")];
                  resp_body := JObj [("message", JStr "Invalid route")] |}, [])) /\
  ((run o n (GET md (inr session) route)).2 <> [] ->
   session <> None /\ exists r, route = Some r /\ r ∈ routes) /\
  (forall name f msg, session <> None -> route = Some name ->
   (name, f, msg) ∈ aggregations md -> GET md (inr session) route = f).
Proof.
  split; [by intros ->|]. split; [|split].
  - intros Hs Hr. destruct session as [x|]; [|done]. by rewrite GET_default.
  - intros Hlog. destruct session as [x|]; [|done]. split; [done|].
    destruct route as [r|].
    + destruct (decide (r ∈ routes)) as [Hin|Hnin]; [by exists r|].
      rewrite GET_default in Hlog; [done|]. by intros ? [= <-].
    + by rewrite GET_default in Hlog.
  - intros name f msg Hs -> Hin. destruct session as [x|]; [|done].
    by eapply GET_dispatch.
Qed.

(** ** Failures of the store *)

(** C8: for each of the seven aggregations, whatever the store answers
    or rejects, the aggregation returns a response and never raises;
    when some store query was rejected the response has status 500, the
    JSON content type and exactly the body [{ message: msg }], [msg]
    being the message of that report, so nothing of a partial result is
    returned; the seven messages differ from one another. *)
Theorem aggregation_failure_is_500 (md : Metadata) (name : string)
    (f : prog Response) (msg : string) (o : oracle) (n : nat) :
  (name, f, msg) ∈ aggregations md ->
  NoDup (aggregations md).*2 /\
  exists resp,
    (run o n f).1 = Returned resp /\
    (some_rejected (run o n f).2 = true ->
     resp = {| resp_status := 500;
               resp_headers := [("Content-Type", "application/json")];
               resp_body := JObj [("message", JStr msg)] |}).
Proof.
  intros Hin. split.
  - change (NoDup (aggregations md).*2) with (NoDup (aggregations (mkMetadata ∅)).*2).
    apply (bool_decide_unpack _). by vm_compute.
  - apply (run_guarded f (json_response 500 (message_body msg))). revert Hin.
    unfold aggregations. rewrite !elem_of_cons, elem_of_nil.
    intros H. repeat destruct H as [H|H]; try done; simplify_eq.
    + apply getSummary_guarded.
    + apply getResolutionRate_guarded.
    + apply getMonthlySummary_guarded.
    + apply getByCategory_guarded.
    + apply getTechnicianPerformance_guarded.
    + apply getCompanySummary_guarded.
    + apply getRecentTickets_guarded.
Qed.

(** ** Summary and resolution rate *)

Lemma count_where_all (l : list Ticket) : count_where where_all l = length l.
Proof.
  unfold count_where. f_equal. induction l as [|t l IH]; [done|].
  rewrite filter_cons_True by done. by f_equal.
Qed.

Lemma where_matches_spec (w : TicketWhere) (t : Ticket) :
  where_matches w t <->
  (forall s, where_status w = Some s -> status t = s) /\
  (forall u, where_userId w = Some u -> userId t = u) /\
  (forall c, where_clientId w = Some c -> clientId t = c).
Proof.
  unfold where_matches. rewrite !andb_True.
  destruct (where_status w), (where_userId w), (where_clientId w);
    rewrite ?bool_decide_spec;
    (split; [intros [[H1 H2] H3]; repeat split; intros; by simplify_eq
            |intros (H1 & H2 & H3); repeat split; eauto]).
Qed.

Lemma count_where_filter (w : TicketWhere) (P : Ticket -> Prop)
    `{!forall t, Decision (P t)} (l : list Ticket) :
  (forall t, where_matches w t <-> P t) ->
  count_where w l = length (filter P l).
Proof. intros HP. unfold count_where. f_equal. by apply list_filter_iff. Qed.

Lemma count_where_status (s : Status.t) (l : list Ticket) :
  count_where (where_status_is s) l = length (filter (fun t => status t = s) l).
Proof.
  apply count_where_filter. intros t. rewrite where_matches_spec. simpl.
  split; [intros (H1 & _); by apply H1|intros <-; repeat split; intros; by simplify_eq].
Qed.

Lemma open_closed_le_length (l : list Ticket) :
  (length (filter (fun t => status t = Status.Open) l)
   + length (filter (fun t => status t = Status.Closed) l) <= length l)%nat.
Proof.
  induction l as [|t l IH]; [done|].
  rewrite !filter_cons. repeat case_decide; simpl; try lia.
  assert (Status.Open = Status.Closed) by congruence. done.
Qed.

(** C9: the summary answers 200 with [{ totalTickets, pendingTickets,
    completedTickets }], the number of all tickets, of the tickets with
    status Open and of those with status Closed, and pending plus
    completed is at most the total (for every ticket set, empty or not). *)
Theorem getSummary_pending_completed_le_total (s : Store) :
  exists totalTickets pendingTickets completedTickets : nat,
    (run (db s) 0 getSummary).1
    = Returned {| resp_status := 200;
                  resp_headers := [("Content-Type", "application/json")];
                  resp_body :=
                    JObj [("totalTickets", JNum (Z.of_nat totalTickets));
                          ("pendingTickets", JNum (Z.of_nat pendingTickets));
                          ("completedTickets", JNum (Z.of_nat completedTickets))] |} /\
    totalTickets = length (tickets s) /\
    pendingTickets = length (filter (fun t => status t = "Open") (tickets s)) /\
    completedTickets = length (filter (fun t => status t = "Closed") (tickets s)) /\
    (pendingTickets + completedTickets <= totalTickets)%nat.
Proof.
  eexists _, _, _. split; [reflexivity|]. simpl.
  rewrite count_where_all, !count_where_status.
  repeat split. apply open_closed_le_length.
Qed.

Lemma getResolutionRate_eval (s : Store) :
  (run (db s) 0 getResolutionRate).1
  = Returned (json_response 200
      (JObj [("resolutionRate",
              json_of_number
                (resolutionRate
                   (length (filter (fun t => status t = Status.Closed) (tickets s)))
                   (length (tickets s))))])).
Proof. simpl. by rewrite count_where_all, !count_where_status. Qed.

(** ** Sorting *)

Section Sorting.
Context {A : Type} (leb : A -> A -> bool).
Hypothesis leb_total : forall a b, leb a b = true \/ leb b a = true.
Hypothesis leb_trans : forall a b c, leb a b = true -> leb b c = true -> leb a c = true.

Lemma insert_by_Permutation (x : A) (l : list A) : insert_by leb x l ≡ₚ x :: l.
Proof.
  induction l as [|y l IH]; simpl; [done|].
  destruct (leb x y); [done|]. rewrite IH. apply Permutation_swap.
Qed.

Lemma sort_by_Permutation (l : list A) : sort_by leb l ≡ₚ l.
Proof.
  induction l as [|x l IH]; simpl; [done|].
  by rewrite insert_by_Permutation, IH.
Qed.

Lemma insert_by_StronglySorted (x : A) (l : list A) :
  StronglySorted (fun a b => leb a b = true) l ->
  StronglySorted (fun a b => leb a b = true) (insert_by leb x l).
Proof.
  induction 1 as [|y l Hl IH Hy]; simpl; [repeat constructor|].
  destruct (leb x y) eqn:Hxy.
  - constructor; [by constructor|]. constructor; [done|].
    eapply Forall_impl; [exact Hy|]. intros z Hz. by eapply leb_trans.
  - constructor; [done|]. rewrite insert_by_Permutation. constructor; [|done].
    destruct (leb_total x y); congruence.
Qed.

Lemma sort_by_StronglySorted (l : list A) :
  StronglySorted (fun a b => leb a b = true) (sort_by leb l).
Proof.
  induction l as [|x l IH]; simpl; [constructor|].
  by apply insert_by_StronglySorted.
Qed.

End Sorting.

Lemma StronglySorted_weaken {A : Type} (R R' : A -> A -> Prop) (l : list A) :
  (forall a b, R a b -> R' a b) -> StronglySorted R l -> StronglySorted R' l.
Proof.
  intros HR. induction 1 as [|x l Hl IH Hx]; constructor; [done|].
  eapply Forall_impl; [exact Hx|]. intros y. apply HR.
Qed.

Lemma newer_or_same_spec (a b : Ticket) :
  newer_or_same a b = true <-> createdAt b <= createdAt a.
Proof. unfold newer_or_same. apply Z.leb_le. Qed.

Lemma findMany_desc_sorted (l : list Ticket) :
  StronglySorted (fun a b => createdAt b <= createdAt a) (sort_by newer_or_same l).
Proof.
  eapply StronglySorted_weaken; [|apply sort_by_StronglySorted].
  - intros a b. apply newer_or_same_spec.
  - intros a b. rewrite !newer_or_same_spec. lia.
  - intros a b c. rewrite !newer_or_same_spec. lia.
Qed.

(** ** Recent tickets *)

(** C6: with more than five tickets in the store, the recent-tickets
    aggregation answers 200 with exactly five tickets, in descending
    order of creation time; they are five of the store's tickets, no
    ticket left out was created after one that is returned (nothing is
    filtered), and the first one is a most recently created ticket. *)
Theorem getRecentTickets_five_newest (s : Store) :
  (5 < length (tickets s))%nat ->
  exists recent older : list Ticket,
    (run (db s) 0 getRecentTickets).1
    = Returned {| resp_status := 200;
                  resp_headers := [("Content-Type", "application/json")];
                  resp_body := JArr (ticket_json <$> recent) |} /\
    length recent = 5%nat /\
    recent ++ older ≡ₚ tickets s /\
    StronglySorted (fun a b => createdAt b <= createdAt a) recent /\
    (forall a b, a ∈ recent -> b ∈ older -> createdAt b <= createdAt a) /\
    (exists first, head recent = Some first /\
       forall t, t ∈ tickets s -> createdAt t <= createdAt first).
Proof.
  intros Hlen.
  pose proof (sort_by_Permutation newer_or_same (tickets s)) as Hperm.
  pose proof (findMany_desc_sorted (tickets s)) as Hsorted.
  set (sorted := sort_by newer_or_same (tickets s)) in *.
  assert (length sorted = length (tickets s)) as Hlen' by by rewrite Hperm.
  exists (take 5 sorted), (drop 5 sorted).
  rewrite <- (take_drop 5 sorted) in Hsorted.
  split; [reflexivity|]. split; [rewrite length_take; lia|].
  split; [by rewrite take_drop|].
  split; [exact (StronglySorted_app_1_l _ _ _ Hsorted)|].
  split; [intros a b Ha Hb;
          exact (StronglySorted_app_1_elem_of _ _ _ a b Hsorted Ha Hb)|].
  destruct sorted as [|first rest] eqn:Hs; [simpl in Hlen'; lia|].
  exists first. split; [done|]. intros t Ht.
  rewrite <- Hperm in Ht. apply elem_of_cons in Ht as [->|Ht]; [lia|].
  rewrite take_drop in Hsorted. apply StronglySorted_inv in Hsorted as [_ Hall].
  by eapply Forall_forall in Hall.
Qed.

(** ** Grouping *)

Lemma distinct_NoDup {K : Type} `{EqDecision K} (key : Ticket -> K) (l : list Ticket) :
  NoDup (distinct key l).
Proof. apply NoDup_remove_dups. Qed.

Lemma elem_of_distinct {K : Type} `{EqDecision K} (key : Ticket -> K) (l : list Ticket) k :
  k ∈ distinct key l <-> exists t, t ∈ l /\ key t = k.
Proof.
  unfold distinct. rewrite elem_of_remove_dups, list_elem_of_fmap.
  split; intros (t & ? & ?); exists t; by split.
Qed.

Lemma eval_await {X : Type} (s : Store) (q : query X) :
  eval s (await q) = Returned (answer s q).
Proof. reflexivity. Qed.

(** ** By category *)

(** C10, as the code has it: when some ticket's type has no entry in
    the metadata catalog and is not the name of a member that the
    catalog object inherits, the lookup gives [undefined], reading its
    [text] throws inside the [try], and the by-category aggregation
    answers 500 with the body [{ message: "Hubo un error al obtener el
    desglose por categoría" }]: the very response it gives when the
    store rejects its query. *)
Theorem getByCategory_missing_entry_is_500 (md : Metadata) (s : Store) :
  (exists t, t ∈ tickets s /\ metadata_type md !! type t = None /\
             type t ∉ object_prototype_members) ->
  (run (db s) 0 (getByCategory md)).1
  = Returned {| resp_status := 500;
                resp_headers := [("Content-Type", "application/json")];
                resp_body :=
                  JObj [("message",
                         JStr "Hubo un error al obtener el desglose por categoría")] |} /\
  (forall (o : oracle) (n : nat) (e : exn),
     o n _ ticket_groupBy_type = inl e ->
     (run o n (getByCategory md)).1 = (run (db s) 0 (getByCategory md)).1).
Proof.
  intros (t & Ht & Hnone & Hown).
  assert ((run (db s) 0 (getByCategory md)).1
          = Returned (json_response 500
              (message_body "Hubo un error al obtener el desglose por categoría")))
    as Hrun.
  { rewrite run_db. unfold getByCategory.
    rewrite eval_try_catch, eval_mbind, eval_await, eval_mbind.
    destruct (eval_mapM_raised s (category_item md) (answer s ticket_groupBy_type)
                (group_row type (tickets s) (type t))) as [e ->]; [| |done].
    - simpl. apply list_elem_of_fmap. exists (type t). split; [done|].
      apply elem_of_distinct. by exists t.
    - unfold category_item, get_member. simpl. rewrite Hnone.
      rewrite bool_decide_eq_false_2 by done. by eexists. }
  split; [done|]. intros o n e Ho. rewrite Hrun. simpl. by rewrite Ho.
Qed.

(** C2, as the code has it: when every type among the tickets has a
    catalog entry, the by-category aggregation answers 200 with one
    entry per distinct type among the tickets, each type once, and the
    entry of a type is [{ type: label, _count: { _all: n }, color, icon }]
    with the catalog's label, color and icon of that type and [n] the
    number of tickets of that type. *)
Theorem getByCategory_one_entry_per_type (md : Metadata) (s : Store) :
  (forall t, t ∈ tickets s -> is_Some (metadata_type md !! type t)) ->
  exists groups : list (string * MetaEntry * nat),
    (run (db s) 0 (getByCategory md)).1
    = Returned {| resp_status := 200;
                  resp_headers := [("Content-Type", "application/json")];
                  resp_body := JArr (category_json <$> groups) |} /\
    NoDup groups.*1.*1 /\
    (forall ty, ty ∈ groups.*1.*1 <-> exists t, t ∈ tickets s /\ type t = ty) /\
    (forall ty entry n, (ty, entry, n) ∈ groups ->
       metadata_type md !! ty = Some entry /\
       n = length (filter (fun t => type t = ty) (tickets s))).
Proof.
  intros Hcat.
  set (entry_of ty := default (mkMeta "" "" "") (metadata_type md !! ty)).
  set (group ty := (ty, entry_of ty, count_key type ty (tickets s))).
  assert ((group <$> distinct type (tickets s)).*1.*1 = distinct type (tickets s)) as Hkeys.
  { rewrite <- !list_fmap_compose. apply list_fmap_id. }
  exists (group <$> distinct type (tickets s)). rewrite Hkeys.
  split; [|split; [apply distinct_NoDup|split; [apply elem_of_distinct|]]].
  - rewrite run_db. unfold getByCategory.
    rewrite eval_try_catch, eval_mbind, eval_await, eval_mbind.
    rewrite (eval_mapM s _ (fun item => category_json
               (by_key item, entry_of (by_key item), _all (_count item)))).
    + simpl. by rewrite <- !list_fmap_compose.
    + intros item Hitem. simpl in Hitem.
      apply list_elem_of_fmap in Hitem as (ty & -> & Hty).
      apply elem_of_distinct in Hty as (t & Ht & <-).
      unfold category_item, get_member, entry_of. simpl.
      by destruct (Hcat t Ht) as [entry ->].
  - intros ty entry n Hin. apply list_elem_of_fmap in Hin as (ty' & [= -> -> ->] & Hty).
    split; [|done]. apply elem_of_distinct in Hty as (t & Ht & <-).
    unfold entry_of. by destruct (Hcat t Ht) as [entry ->].
Qed.

(** ** Company summary *)

Lemma count_where_client (c : Z) (st : Status.t) (l : list Ticket) :
  count_where (where_client c st) l
  = length (filter (fun t => clientId t = c /\ status t = st) l).
Proof.
  apply count_where_filter. intros t. rewrite where_matches_spec. simpl.
  split; [intros (H1 & _ & H3); split; [by apply H3|by apply H1]
         |intros [<- <-]; repeat split; intros; by simplify_eq].
Qed.

(** C5: the company summary answers 200 with one JSON object per
    distinct [clientId] among the tickets, each client once; the object
    of a client is [{ name, completed, pending }], [completed] and
    [pending] being the numbers of that client's tickets with status
    Closed and Open; a client that is not in the person table is kept,
    with the name "Unknown". *)
Theorem getCompanySummary_one_group_per_client (s : Store) :
  exists clients : list Z,
    (run (db s) 0 getCompanySummary).1
    = Returned {| resp_status := 200;
                  resp_headers := [("Content-Type", "application/json")];
                  resp_body := JArr (company_entry s <$> clients) |} /\
    NoDup clients /\
    (forall c, c ∈ clients <-> exists t, t ∈ tickets s /\ clientId t = c) /\
    (forall c, c ∈ clients -> persons s !! c = None ->
       company_entry s c
       = JObj [("name", JStr "Unknown");
               ("completed",
                JNum (Z.of_nat (length (filter (fun t => clientId t = c /\
                                                         status t = "Closed")
                                               (tickets s)))));
               ("pending",
                JNum (Z.of_nat (length (filter (fun t => clientId t = c /\
                                                         status t = "Open")
                                               (tickets s)))))]).
Proof.
  exists (distinct clientId (tickets s)).
  split; [|split; [apply distinct_NoDup|split; [apply elem_of_distinct|]]].
  - rewrite run_db. unfold getCompanySummary.
    rewrite eval_try_catch, eval_mbind, eval_await, eval_mbind.
    rewrite (eval_mapM s _ (fun item => company_group s (by_key item))).
    + simpl. unfold json_response. do 3 f_equal.
      rewrite <- !list_fmap_compose. by apply list_fmap_ext.
    + intros item _. unfold company_item, company_group.
      rewrite !eval_mbind, !eval_await. simpl.
      by rewrite !count_where_client.
  - intros c _ Hnone. unfold company_entry. by rewrite Hnone.
Qed.

(** ** Technician performance *)

Lemma count_where_user (u : option Z) (st : Status.t) (l : list Ticket) :
  count_where (where_user u st) l
  = length (filter (fun t => userId t = u /\ status t = st) l).
Proof.
  apply count_where_filter. intros t. rewrite where_matches_spec. simpl.
  split; [intros (H1 & H2 & _); split; [by apply H2|by apply H1]
         |intros [<- <-]; repeat split; intros; by simplify_eq].
Qed.

Lemma technician_item_eval (s : Store) (u : Z) :
  eval s (technician_item (group_row userId (tickets s) (Some u)))
  = Returned (technician_group s <$> resolve_assignee s (Some u)).
Proof.
  unfold technician_item, resolve_assignee. simpl.
  destruct (persons s !! u) as [p|]; simpl; [|done].
  by rewrite !count_where_user.
Qed.

Lemma technician_rows_eval (s : Store) (us : list (option Z)) :
  exists result,
    eval s (mapM technician_item
              (filter (fun item => by_key item ≠ None)
                      (group_row userId (tickets s) <$> us)))
    = Returned result /\
    omap id result = technician_group s <$> omap (resolve_assignee s) us.
Proof.
  induction us as [|[u|] us (result & Hres & Hrows)]; rewrite ?fmap_cons.
  - by exists [].
  - rewrite filter_cons_True by done. cbn [mapM].
    rewrite eval_mbind, technician_item_eval, eval_mbind, Hres.
    eexists. split; [reflexivity|].
    unfold resolve_assignee in *. simpl.
    destruct (persons s !! u) as [p|]; simpl; [f_equal|]; exact Hrows.
  - rewrite filter_cons_False by (simpl; intros H; by apply H).
    by exists result.
Qed.

Lemma elem_of_resolved (s : Store) (us : list (option Z)) (u : Z) (p : Person) :
  (u, p) ∈ omap (resolve_assignee s) us <-> Some u ∈ us /\ persons s !! u = Some p.
Proof.
  rewrite list_elem_of_omap. unfold resolve_assignee. split.
  - intros ([i|] & Hin & Heq); simpl in Heq; [|done].
    destruct (persons s !! i) as [q|] eqn:Hq; simpl in Heq; [|done].
    by simplify_eq.
  - intros [Hin Hp]. exists (Some u). split; [done|]. simpl. by rewrite Hp.
Qed.

Lemma resolved_NoDup (s : Store) (us : list (option Z)) :
  NoDup us -> NoDup (omap (resolve_assignee s) us).*1.
Proof.
  induction 1 as [|u us Hu Hus IH]; simpl; [constructor|].
  destruct (resolve_assignee s u) as [[i p]|] eqn:Hr; [|done].
  simpl. constructor; [|done].
  intros Hin. apply list_elem_of_fmap in Hin as ([i' q] & -> & Hin).
  apply elem_of_resolved in Hin as [Hin _]. simpl in *.
  unfold resolve_assignee in Hr. destruct u as [j|]; simpl in Hr; [|done].
  destruct (persons s !! j); simpl in Hr; [|done]. by simplify_eq.
Qed.

(** C4: the technician report answers 200 with one JSON object per
    assignee that is in the person table, each once: every object
    belongs to a non-null [userId] of some ticket whose person record
    exists, so a null [userId] and a [userId] without person record have
    no object at all; the object of an assignee is
    [{ name: "<first> <last>", total, completed, pending }], with the
    numbers of that assignee's tickets, of those with status Closed and
    of those with status Open. *)
Theorem getTechnicianPerformance_groups (s : Store) :
  exists assignees : list (Z * Person),
    (run (db s) 0 getTechnicianPerformance).1
    = Returned {| resp_status := 200;
                  resp_headers := [("Content-Type", "application/json")];
                  resp_body := JArr (technician_entry s <$> assignees) |} /\
    NoDup assignees.*1 /\
    (forall u p, (u, p) ∈ assignees <->
       (exists t, t ∈ tickets s /\ userId t = Some u) /\ persons s !! u = Some p).
Proof.
  exists (omap (resolve_assignee s) (distinct userId (tickets s))).
  split; [|split; [apply resolved_NoDup, distinct_NoDup|]].
  - rewrite run_db. unfold getTechnicianPerformance.
    rewrite eval_try_catch, eval_mbind, eval_await, eval_mbind.
    destruct (technician_rows_eval s (distinct userId (tickets s)))
      as (result & Hres & Hrows).
    simpl. rewrite Hres. simpl. rewrite Hrows.
    unfold json_response. do 3 f_equal.
    rewrite <- !list_fmap_compose. by apply list_fmap_ext.
  - intros u p. by rewrite elem_of_resolved, elem_of_distinct.
Qed.

(** ** Monthly summary *)

Lemma digit_inj (n n' k : Z) :
  digit n k = digit n' k -> (n / 10 ^ k) mod 10 = (n' / 10 ^ k) mod 10.
Proof.
  unfold digit. intros H. apply (f_equal nat_of_ascii) in H.
  assert (forall x, 0 <= x mod 10 < 10) as Hb by (intros; apply Z.mod_pos_bound; lia).
  pose proof (Hb (n / 10 ^ k)). pose proof (Hb (n' / 10 ^ k)).
  rewrite !nat_ascii_embedding in H by lia. lia.
Qed.

Lemma month_label_inj (a b : Z * Z) :
  month_in_range a -> month_in_range b -> month_label a = month_label b -> a = b.
Proof.
  destruct a as [y m], b as [y' m']. unfold month_in_range, month_label, pad4, pad3, pad2.
  simpl fst; simpl snd. intros [Hy Hm] [Hy' Hm'] H.
  injection H as H3 H2 H1 H0 M1 M0.
  apply digit_inj in H3, H2, H1, H0, M1, M0.
  change (10 ^ 3) with 1000 in *. change (10 ^ 2) with 100 in *.
  change (10 ^ 1) with 10 in *. change (10 ^ 0) with 1 in *.
  f_equal; Z.div_mod_to_equations; lia.
Qed.

Lemma month_key_in_range (d : Date) :
  0 <= YearFromTime d <= 9999 -> month_key d = month_label (utc_month d).
Proof.
  intros Hy. unfold month_key, toISOString, isoYear.
  replace ((0 <=? YearFromTime d) && (YearFromTime d <=? 9999)) with true
    by (symmetry; apply andb_true_intro; split; apply Z.leb_le; lia).
  reflexivity.
Qed.

(** *** The accumulator of the [reduce], by month key *)

Lemma acc_add_absent (k : string) (n : nat) (acc : list (string * MonthBucket)) :
  k ∉ acc.*1 -> acc_add k n acc = acc.
Proof.
  induction acc as [|[k' b] acc IH]; simpl; [done|].
  rewrite not_elem_of_cons. intros [Hne Hnin].
  rewrite bool_decide_eq_false_2 by done. by rewrite IH.
Qed.

Lemma acc_add_fresh (k : string) (n : nat) (b : MonthBucket)
    (acc : list (string * MonthBucket)) :
  k ∉ acc.*1 ->
  acc_add k n (acc ++ [(k, b)])
  = acc ++ [(k, mkBucket (month b) (bucket_tickets b + n))].
Proof.
  induction acc as [|[k' b'] acc IH]; simpl.
  - intros _. by rewrite bool_decide_eq_true_2.
  - rewrite not_elem_of_cons. intros [Hne Hnin].
    rewrite bool_decide_eq_false_2 by done. by rewrite IH.
Qed.

Lemma acc_add_entries (k : string) (n : nat) (g : string -> nat) (ks : list string) :
  NoDup ks ->
  acc_add k n ((fun k' => (k', mkBucket k' (g k'))) <$> ks)
  = (fun k' => (k', mkBucket k' (g k' + if decide (k' = k) then n else 0))) <$> ks.
Proof.
  induction 1 as [|k' ks Hk' Hks IH]; [done|].
  rewrite !fmap_cons. cbn [acc_add].
  case_bool_decide as Hd; case_decide; try done; cbn [month bucket_tickets].
  - subst k'. f_equal.
    apply list_fmap_ext. intros i k' Hi. case_decide; [|by rewrite Nat.add_0_r].
    subst k'. by apply list_elem_of_lookup_2 in Hi.
  - by rewrite Nat.add_0_r, IH.
Qed.

Section MonthlyFold.
Variable cnt : Date -> nat.

Lemma key_total_snoc (ds : list Date) (d : Date) (k : string) :
  key_total cnt (ds ++ [d]) k
  = (key_total cnt ds k + if decide (k = month_key d) then cnt d else 0)%nat.
Proof.
  unfold key_total. rewrite filter_app, sum_list_with_app. f_equal.
  rewrite filter_cons, filter_nil.
  repeat case_decide; simpl; try done; try lia; congruence.
Qed.

Lemma key_total_none (ds : list Date) (k : string) :
  (forall d, d ∈ ds -> month_key d <> k) -> key_total cnt ds k = 0%nat.
Proof.
  intros Hno. unfold key_total. induction ds as [|d ds IH]; [done|].
  rewrite filter_cons_False by (apply Hno; left).
  apply IH. intros d' Hd'. apply Hno. by right.
Qed.

Lemma key_entry_keys (ds : list Date) (ks : list string) : (key_entry cnt ds <$> ks).*1 = ks.
Proof. rewrite <- list_fmap_compose. apply list_fmap_id. Qed.

Lemma monthly_step_buckets (ds : list Date) (d : Date) (acc : list (string * MonthBucket)) :
  buckets_of cnt ds acc -> buckets_of cnt (ds ++ [d]) (monthly_step acc (date_row cnt d)).
Proof.
  intros (ks & -> & Hnd & Hks). unfold monthly_step, acc_has. simpl.
  rewrite key_entry_keys. case_bool_decide as Hin.
  - exists ks. split; [|split; [done|]].
    + unfold key_entry at 1. rewrite (acc_add_entries _ _ (key_total cnt ds)) by done.
      apply list_fmap_ext. intros i k Hi. unfold key_entry.
      by rewrite key_total_snoc.
    + intros k. rewrite Hks. split.
      * intros (d' & Hd' & Hk). exists d'. split; [|done]. apply elem_of_app. by left.
      * intros (d' & Hd' & Hk). apply elem_of_app in Hd' as [Hd'|Hd'].
        { by exists d'. }
        apply list_elem_of_singleton in Hd' as ->. subst k. by apply Hks.
  - exists (ks ++ [month_key d]). split; [|split].
    + rewrite acc_add_fresh by by rewrite key_entry_keys.
      rewrite fmap_app. simpl. f_equal.
      * apply list_fmap_ext. intros i k Hi. unfold key_entry.
        rewrite key_total_snoc. case_decide; [|by rewrite Nat.add_0_r].
        subst k. by apply list_elem_of_lookup_2 in Hi.
      * unfold key_entry. rewrite key_total_snoc, decide_True by done.
        rewrite key_total_none; [done|].
        intros d' Hd' Hk. apply Hin, Hks. by exists d'.
    + apply NoDup_app. split; [done|]. split; [|apply NoDup_singleton].
      intros k Hk ->%list_elem_of_singleton. done.
    + intros k. rewrite elem_of_app, list_elem_of_singleton, Hks. split.
      * intros [(d' & Hd' & Hk)| ->].
        { exists d'. split; [|done]. apply elem_of_app. by left. }
        exists d. split; [|done]. apply elem_of_app. right. by left.
      * intros (d' & Hd' & Hk). apply elem_of_app in Hd' as [Hd'|Hd'].
        { left. by exists d'. }
        apply list_elem_of_singleton in Hd' as ->. by right.
Qed.

Lemma monthly_fold_buckets (ds' ds : list Date) (acc : list (string * MonthBucket)) :
  buckets_of cnt ds acc ->
  buckets_of cnt (ds ++ ds') (foldl monthly_step acc (date_row cnt <$> ds')).
Proof.
  revert ds acc. induction ds' as [|d ds' IH]; intros ds acc Hacc; simpl.
  - by rewrite app_nil_r.
  - change (d :: ds') with ([d] ++ ds'). rewrite app_assoc.
    apply IH. by apply monthly_step_buckets.
Qed.

End MonthlyFold.

Lemma sum_one_hot (x : Date) (l : list Date) :
  NoDup l ->
  sum_list_with (fun d => if decide (x = d) then 1%nat else 0%nat) l
  = if decide (x ∈ l) then 1%nat else 0%nat.
Proof.
  induction 1 as [|d l Hd Hl IH]; simpl; [done|]. rewrite IH.
  destruct (decide (x = d)) as [->|Hne].
  - rewrite (decide_False (P := d ∈ l)) by done.
    by rewrite decide_True by left.
  - destruct (decide (x ∈ l)) as [Hl'|Hl'].
    + by rewrite decide_True by by right.
    + rewrite decide_False; [done|]. by intros [?|?]%elem_of_cons.
Qed.

Lemma sum_list_with_ext_in {A : Type} (f g : A -> nat) (l : list A) :
  (forall x, x ∈ l -> f x = g x) -> sum_list_with f l = sum_list_with g l.
Proof.
  induction l as [|x l IH]; intros Hfg; simpl; [done|].
  rewrite Hfg by left. rewrite IH; [done|]. intros y Hy. apply Hfg. by right.
Qed.

Lemma sum_list_with_add {A : Type} (f g : A -> nat) (l : list A) :
  sum_list_with (fun x => (f x + g x)%nat) l
  = (sum_list_with f l + sum_list_with g l)%nat.
Proof. induction l; simpl; lia. Qed.

(** Summing the group counts of the distinct timestamps of a month
    gives the number of tickets of that month. *)
Lemma key_total_count (ds : list Date) (k : string) (l : list Ticket) :
  NoDup ds -> (forall t, t ∈ l -> createdAt t ∈ ds) ->
  key_total (fun d => count_key createdAt d l) ds k
  = length (filter (fun t => month_key (createdAt t) = k) l).
Proof.
  intros Hnd. unfold key_total, count_key.
  induction l as [|t l IH]; intros Hin.
  - rewrite (sum_list_with_ext_in _ (fun _ => 0%nat)) by done.
    by induction (filter _ ds).
  - rewrite (sum_list_with_ext_in _
      (fun d => ((if decide (createdAt t = d) then 1 else 0)
                 + length (filter (fun t => createdAt t = d) l))%nat)).
    2:{ intros d _. rewrite filter_cons. by case_decide. }
    rewrite sum_list_with_add, IH by (intros; apply Hin; by right).
    rewrite sum_one_hot by by apply NoDup_filter.
    rewrite filter_cons. pose proof (Hin t ltac:(left)) as Ht.
    destruct (decide (month_key (createdAt t) = k)) as [Hk|Hk].
    + rewrite decide_True by by apply list_elem_of_filter. done.
    + rewrite decide_False; [done|]. by intros [? _]%list_elem_of_filter.
Qed.

Lemma civil_month_range (days : Z) : 1 <= (civil_from_days days).1.2 <= 12.
Proof.
  unfold civil_from_days. cbv zeta. cbn [fst snd].
  set (doe := (days + 719468) mod 146097).
  assert (0 <= doe < 146097) by (apply Z.mod_pos_bound; lia).
  clearbody doe.
  set (yoe := (doe - doe / 1460 + doe / 36524 - doe / 146096) / 365).
  set (doy := doe - (365 * yoe + yoe / 4 - yoe / 100)).
  assert (0 <= doy <= 365) by (subst doy yoe; Z.div_mod_to_equations; lia).
  set (mp := (5 * doy + 2) / 153).
  assert (0 <= mp <= 11) by (subst mp; Z.div_mod_to_equations; lia).
  destruct (mp <? 10) eqn:E; [apply Z.ltb_lt in E|apply Z.ltb_ge in E]; lia.
Qed.

Lemma utc_month_in_range (d : Date) :
  0 <= YearFromTime d <= 9999 -> month_in_range (utc_month d).
Proof. intros Hy. split; [done|]. apply civil_month_range. Qed.

Lemma filter_ext_in {A : Type} (P Q : A -> Prop)
    `{!forall x, Decision (P x), !forall x, Decision (Q x)} (l : list A) :
  (forall x, x ∈ l -> P x <-> Q x) -> filter P l = filter Q l.
Proof.
  induction l as [|x l IH]; intros HPQ; [done|].
  rewrite !filter_cons, IH by (intros; apply HPQ; by right).
  destruct (decide (P x)) as [HP|HP], (decide (Q x)) as [HQ|HQ]; try done.
  - by apply HPQ in HP; [|left].
  - by apply HPQ in HQ; [|left].
Qed.

Lemma labels_of_keys (ks : list string) :
  (forall k, k ∈ ks -> exists ym, month_in_range ym /\ month_label ym = k) ->
  exists months, Forall month_in_range months /\ ks = month_label <$> months.
Proof.
  induction ks as [|k ks IH]; intros Hks; [by exists []|].
  destruct (Hks k) as (ym & Hym & <-); [left|].
  destruct IH as (months & Hall & ->); [intros; apply Hks; by right|].
  exists (ym :: months). split; [by constructor|done].
Qed.

Lemma getMonthlySummary_eval (s : Store) :
  exists ks : list string,
    eval s getMonthlySummary
    = Returned (json_response 200 (JArr (bucket_json <$> (key_bucket s <$> ks)))) /\
    NoDup ks /\
    (forall k, k ∈ ks <-> exists t, t ∈ tickets s /\ month_key (createdAt t) = k).
Proof.
  set (ds := sort_by Z.leb (distinct createdAt (tickets s))).
  set (cnt d := count_key createdAt d (tickets s)).
  assert (ds ≡ₚ distinct createdAt (tickets s)) as Hperm by apply sort_by_Permutation.
  destruct (monthly_fold_buckets cnt ds [] []) as (ks & Hacc & Hnd & Hks).
  { exists []. split; [done|]. split; [constructor|].
    intros k. split; [by intros ?%elem_of_nil|]. by intros (d & ?%elem_of_nil & _). }
  exists ks. split; [|split; [done|]].
  - unfold getMonthlySummary.
    rewrite eval_try_catch, eval_mbind, eval_await.
    change (answer s ticket_groupBy_createdAt) with (date_row cnt <$> ds).
    simpl in Hacc. simpl. rewrite Hacc. do 3 f_equal.
    rewrite <- !list_fmap_compose. apply list_fmap_ext. intros i k _. simpl.
    unfold key_bucket, cnt. rewrite key_total_count; [done|..].
    + rewrite Hperm. apply distinct_NoDup.
    + intros t Ht. rewrite Hperm. apply elem_of_distinct. by exists t.
  - intros k. rewrite Hks. simpl. split.
    + intros (d & Hd & Hk). rewrite Hperm in Hd.
      apply elem_of_distinct in Hd as (t & Ht & <-). by exists t.
    + intros (t & Ht & Hk). exists (createdAt t). split; [|done].
      rewrite Hperm. apply elem_of_distinct. by exists t.
Qed.

(** C3, as the code has it: when the creation times of the tickets fall
    in the UTC years 0000 to 9999, the monthly summary answers 200 with
    exactly one [{ month, tickets }] pair per calendar month (UTC) in
    which a ticket was created; [month] is the [YYYY-MM] label of the
    month and [tickets] the number of tickets created in it, whatever
    their days. *)
Theorem getMonthlySummary_one_bucket_per_month (s : Store) :
  (forall t, t ∈ tickets s -> 0 <= YearFromTime (createdAt t) <= 9999) ->
  exists months : list (Z * Z),
    (run (db s) 0 getMonthlySummary).1
    = Returned {| resp_status := 200;
                  resp_headers := [("Content-Type", "application/json")];
                  resp_body := JArr (month_entry s <$> months) |} /\
    NoDup months /\
    (forall ym, ym ∈ months <-> exists t, t ∈ tickets s /\ utc_month (createdAt t) = ym).
Proof.
  intros Hyears.
  destruct (getMonthlySummary_eval s) as (ks & Heval & Hnd & Hks).
  destruct (labels_of_keys ks) as (months & Hrange & ->).
  { intros k (t & Ht & <-)%Hks. exists (utc_month (createdAt t)).
    split; [by apply utc_month_in_range, Hyears|].
    symmetry. by apply month_key_in_range, Hyears. }
  rewrite Forall_forall in Hrange.
  assert (forall ym t, ym ∈ months -> t ∈ tickets s ->
            month_key (createdAt t) = month_label ym <-> utc_month (createdAt t) = ym)
    as Hkey.
  { intros ym t Hym Ht. rewrite month_key_in_range by by apply Hyears.
    split; [|by intros ->]. apply month_label_inj; [|by apply Hrange].
    by apply utc_month_in_range, Hyears. }
  exists months. split; [|split; [by eapply NoDup_fmap_1|]].
  - rewrite run_db, Heval. unfold json_response. do 3 f_equal.
    rewrite <- !list_fmap_compose. apply list_fmap_ext. intros i ym Hi.
    apply list_elem_of_lookup_2 in Hi. simpl. unfold key_bucket, month_entry, bucket_json.
    simpl.
    rewrite (filter_ext_in _ (fun t => utc_month (createdAt t) = ym)); [done|].
    intros t Ht. by apply Hkey.
  - intros ym. split.
    + intros Hym. destruct (proj1 (Hks (month_label ym))) as (t & Ht & Hk).
      { apply list_elem_of_fmap. by exists ym. }
      exists t. split; [done|]. by apply Hkey.
    + intros (t & Ht & <-).
      assert (month_key (createdAt t) ∈ month_label <$> months) as Hin
        by (apply Hks; by exists t).
      apply list_elem_of_fmap in Hin as (ym & Hk & Hym).
      apply Hkey in Hk; [|done..]. by rewrite Hk.
Qed.

(** ** Resolution rate *)

(** Two of the six sample tickets are closed: [(2 / 6) * 100], the
    binary64 number written 33.33333333333333. *)
Example resolutionRate_six_tickets :
  (run (db six_tickets) 0 getResolutionRate).1
  = Returned (json_response 200
                (JObj [("resolutionRate", JFloat 0x1.0aaaaaaaaaaaap+5%float)])).
Proof. vm_compute. reflexivity. Qed.

Example resolutionRate_1_of_4 : resolutionRate 1 4 = 25%float.
Proof. vm_compute. reflexivity. Qed.

(** C1, on the empty store: with no ticket at all the quotient is
    [0 / 0], not a number, and the resolution-rate aggregation answers
    200 with the body [{ resolutionRate: null }]. *)
Theorem getResolutionRate_no_tickets :
  PrimFloat.is_nan (resolutionRate 0 0) = true /\
  (run (db no_tickets) 0 getResolutionRate).1
  = Returned {| resp_status := 200;
                resp_headers := [("Content-Type", "application/json")];
                resp_body := JObj [("resolutionRate", JNull)] |}.
Proof. split; vm_compute; reflexivity. Qed.

(** ** The properties on the sample data *)

Ltac decide_by_computation := apply (bool_decide_unpack _); vm_compute; exact I.

Lemma GET_guards_aggregations_witness :
  run (db six_tickets) 0 (GET sample_metadata (inr (@None unit)) (Some "summary"))
  = (Returned {| resp_status := 401;
                 resp_headers := [("Content-Type", "application/json")];
                 resp_body := JObj [("message", JStr "Unauthorized")] |}, []) /\
  run (db six_tickets) 0 (GET sample_metadata (inr (Some tt)) (Some "tickets"))
  = (Returned {| resp_status := 400;
                 resp_headers := [("Content-Type", "application/json")];
                 resp_body := JObj [("message", JStr "Invalid route")] |}, []).
Proof.
  split.
  - apply (GET_guards_aggregations sample_metadata (@None unit) (Some "summary")).
    reflexivity.
  - apply (GET_guards_aggregations sample_metadata (Some tt) (Some "tickets")).
    + discriminate.
    + intros r [= <-]. decide_by_computation.
Defined.

Lemma aggregation_failure_is_500_witness :
  (run (flaky_db six_tickets [1%nat]) 0 getSummary).1
  = Returned {| resp_status := 500;
                resp_headers := [("Content-Type", "application/json")];
                resp_body :=
                  JObj [("message",
                         JStr "Hubo un error al obtener el resumen de tickets")] |}.
Proof.
  destruct (aggregation_failure_is_500 sample_metadata "summary" getSummary
              "Hubo un error al obtener el resumen de tickets"
              (flaky_db six_tickets [1%nat]) 0) as (_ & resp & Hret & Hrej).
  - left.
  - rewrite Hret. f_equal. apply Hrej. vm_compute. reflexivity.
Defined.

Lemma getRecentTickets_five_newest_witness :
  exists recent older : list Ticket,
    (run (db six_tickets) 0 getRecentTickets).1
    = Returned {| resp_status := 200;
                  resp_headers := [("Content-Type", "application/json")];
                  resp_body := JArr (ticket_json <$> recent) |} /\
    length recent = 5%nat /\
    recent ++ older ≡ₚ tickets six_tickets /\
    StronglySorted (fun a b => createdAt b <= createdAt a) recent /\
    (forall a b, a ∈ recent -> b ∈ older -> createdAt b <= createdAt a) /\
    (exists first, head recent = Some first /\
       forall t, t ∈ tickets six_tickets -> createdAt t <= createdAt first).
Proof. apply getRecentTickets_five_newest. simpl. lia. Defined.

Example getRecentTickets_six_tickets :
  exists rest,
    (run (db six_tickets) 0 getRecentTickets).1
    = Returned (json_response 200
        (JArr (ticket_json (sample_ticket "t5" "Open" "Feature" 1709210096789 (Some 1) 11)
               :: rest))) /\
    length rest = 4%nat.
Proof. eexists. split; [vm_compute; reflexivity|reflexivity]. Qed.

Lemma getByCategory_missing_entry_is_500_witness :
  (run (db six_tickets) 0 (getByCategory bug_only_metadata)).1
  = Returned {| resp_status := 500;
                resp_headers := [("Content-Type", "application/json")];
                resp_body :=
                  JObj [("message",
                         JStr "Hubo un error al obtener el desglose por categoría")] |}.
Proof.
  apply (getByCategory_missing_entry_is_500 bug_only_metadata six_tickets).
  exists (sample_ticket "t3" "InProgress" "Feature" 1706745600000 None 10).
  split; [right; right; left|].
  split; [vm_compute; reflexivity|decide_by_computation].
Defined.

(** A ticket of type ["constructor"] has no entry in the sample catalog,
    yet the lookup finds the member every object inherits: nothing
    throws and the by-category aggregation answers 200, with an entry
    that has neither [type] nor [color] nor [icon]. *)
Lemma getByCategory_inherited_member_is_200 :
  (exists t, t ∈ tickets constructor_ticket /\
             metadata_type sample_metadata !! type t = None) /\
  (run (db constructor_ticket) 0 (getByCategory sample_metadata)).1
  = Returned {| resp_status := 200;
                resp_headers := [("Content-Type", "application/json")];
                resp_body := JArr [JObj [("_count", JObj [("_all", JNum 1)])]] |} /\
  (run (db constructor_ticket) 0 (getByCategory sample_metadata)).1
  <> Returned {| resp_status := 500;
                 resp_headers := [("Content-Type", "application/json")];
                 resp_body :=
                   JObj [("message",
                          JStr "Hubo un error al obtener el desglose por categoría")] |}.
Proof.
  assert ((run (db constructor_ticket) 0 (getByCategory sample_metadata)).1
          = Returned {| resp_status := 200;
                        resp_headers := [("Content-Type", "application/json")];
                        resp_body := JArr [JObj [("_count", JObj [("_all", JNum 1)])]] |})
    as Heval by (vm_compute; reflexivity).
  split; [|split; [done|by rewrite Heval]].
  eexists. split; [left|]. vm_compute. reflexivity.
Qed.

Lemma getByCategory_one_entry_per_type_witness :
  exists groups : list (string * MetaEntry * nat),
    (run (db six_tickets) 0 (getByCategory sample_metadata)).1
    = Returned {| resp_status := 200;
                  resp_headers := [("Content-Type", "application/json")];
                  resp_body := JArr (category_json <$> groups) |} /\
    NoDup groups.*1.*1 /\
    (forall ty, ty ∈ groups.*1.*1 <-> exists t, t ∈ tickets six_tickets /\ type t = ty) /\
    (forall ty entry n, (ty, entry, n) ∈ groups ->
       metadata_type sample_metadata !! ty = Some entry /\
       n = length (filter (fun t => type t = ty) (tickets six_tickets))).
Proof.
  apply getByCategory_one_entry_per_type.
  apply Forall_forall. decide_by_computation.
Defined.

(** The entries of the by-category report carry the count as
    [_count: { _all: n }]: on the three sample tickets no entry has the
    shape [{ type, count, color, icon }]. *)
Lemma getByCategory_entry_has_no_count :
  ~ exists entries : list json,
      (run (db three_tickets) 0 (getByCategory sample_metadata)).1
      = Returned {| resp_status := 200;
                    resp_headers := [("Content-Type", "application/json")];
                    resp_body := JArr entries |} /\
      forall e, e ∈ entries ->
        exists label n color icon,
          e = JObj [("type", JStr label); ("count", JNum n);
                    ("color", JStr color); ("icon", JStr icon)].
Proof.
  intros (entries & Hrun & Hshape).
  assert ((run (db three_tickets) 0 (getByCategory sample_metadata)).1
          = Returned (json_response 200
              (JArr [category_json ("Bug", mkMeta "Error" "red" "bug", 2%nat);
                     category_json ("Feature", mkMeta "Mejora" "blue" "star", 1%nat)])))
    as Heval by (vm_compute; reflexivity).
  rewrite Heval in Hrun. injection Hrun as <-.
  destruct (Hshape _ ltac:(left)) as (label & n & c & i & Hentry).
  discriminate Hentry.
Qed.

Lemma getMonthlySummary_one_bucket_per_month_witness :
  exists months : list (Z * Z),
    (run (db three_tickets) 0 getMonthlySummary).1
    = Returned {| resp_status := 200;
                  resp_headers := [("Content-Type", "application/json")];
                  resp_body := JArr (month_entry three_tickets <$> months) |} /\
    NoDup months /\
    (forall ym, ym ∈ months <->
       exists t, t ∈ tickets three_tickets /\ utc_month (createdAt t) = ym).
Proof.
  apply getMonthlySummary_one_bucket_per_month.
  apply Forall_forall. decide_by_computation.
Defined.

(** Tickets created on 2024-01-05, 2024-01-20 and 2024-02-01 give the
    two buckets [{ month: "2024-01", tickets: 2 }] and
    [{ month: "2024-02", tickets: 1 }]. *)
Example getMonthlySummary_three_tickets :
  (run (db three_tickets) 0 getMonthlySummary).1
  = Returned (json_response 200
      (JArr [JObj [("month", JStr "2024-01"); ("tickets", JNum 2)];
             JObj [("month", JStr "2024-02"); ("tickets", JNum 1)]])).
Proof. vm_compute. reflexivity. Qed.

(** Two tickets created in January and in February of the year 10000
    share the key ["+010000"]: the monthly summary has one pair for the
    two months, so it is not one pair per calendar month there. *)
Lemma getMonthlySummary_year_10000 :
  (run (db year_10000_tickets) 0 getMonthlySummary).1
  = Returned {| resp_status := 200;
                resp_headers := [("Content-Type", "application/json")];
                resp_body :=
                  JArr [JObj [("month", JStr "+010000"); ("tickets", JNum 2)]] |} /\
  ~ exists months : list (Z * Z),
      (run (db year_10000_tickets) 0 getMonthlySummary).1
      = Returned {| resp_status := 200;
                    resp_headers := [("Content-Type", "application/json")];
                    resp_body := JArr (month_entry year_10000_tickets <$> months) |} /\
      NoDup months /\
      (forall ym, ym ∈ months <->
         exists t, t ∈ tickets year_10000_tickets /\ utc_month (createdAt t) = ym).
Proof.
  assert ((run (db year_10000_tickets) 0 getMonthlySummary).1
          = Returned {| resp_status := 200;
                        resp_headers := [("Content-Type", "application/json")];
                        resp_body :=
                          JArr [JObj [("month", JStr "+010000"); ("tickets", JNum 2)]] |})
    as Heval by (vm_compute; reflexivity).
  split; [done|]. intros (months & Hrun & Hnd & Hin).
  rewrite Heval in Hrun. injection Hrun as Hbody.
  apply (f_equal length) in Hbody. rewrite !length_fmap in Hbody. simpl in Hbody.
  assert ((10000, 1) ∈ months) as H1.
  { apply Hin. eexists. split; [left|]. vm_compute. reflexivity. }
  assert ((10000, 2) ∈ months) as H2.
  { apply Hin. eexists. split; [right; left|]. vm_compute. reflexivity. }
  destruct months as [|a [|b months]]; simpl in Hbody; try (discriminate Hbody).
  apply list_elem_of_singleton in H1, H2. congruence.
Qed.

(** Ana (person 1) has three of the six sample tickets; nobody is
    person 2, whose ticket has no group; the unassigned tickets have none. *)
Example getTechnicianPerformance_six_tickets :
  (run (db six_tickets) 0 getTechnicianPerformance).1
  = Returned (json_response 200
      (JArr [JObj [("name", JStr "Ana Diaz"); ("total", JNum 3);
                   ("completed", JNum 1); ("pending", JNum 2)]])).
Proof. vm_compute. reflexivity. Qed.

(** Client 11 is not in the person table and is kept as "Unknown". *)
Example getCompanySummary_six_tickets :
  (run (db six_tickets) 0 getCompanySummary).1
  = Returned (json_response 200
      (JArr [JObj [("name", JStr "Unknown"); ("completed", JNum 1); ("pending", JNum 1)];
             JObj [("name", JStr "Luis Mora"); ("completed", JNum 1);
                   ("pending", JNum 2)]])).
Proof. vm_compute. reflexivity. Qed.

Example getSummary_six_tickets :
  (run (db six_tickets) 0 getSummary).1
  = Returned (json_response 200
      (JObj [("totalTickets", JNum 6); ("pendingTickets", JNum 3);
             ("completedTickets", JNum 2)])).
Proof. vm_compute. reflexivity. Qed.
(** * Further properties of the route *)

(** ** What every request is answered with *)

Lemma returns_mbind {A B : Type} (P : B -> Prop) (p : prog A) (f : A -> prog B) :
  (forall a, returns P (f a)) -> returns P (p ≫= f).
Proof.
  intros Hf. induction p as [a|e|X q k IH]; simpl; [apply Hf|constructor|].
  constructor. intros r. apply IH.
Qed.

Lemma returns_try_catch {A : Type} (P : A -> Prop) (p : prog A) (h : exn -> prog A) :
  returns P p -> (forall e, returns P (h e)) -> returns P (try_catch p h).
Proof.
  intros Hp Hh. induction Hp as [a Ha|e|X q k Hk IH]; simpl; [by constructor|apply Hh|].
  constructor. intros r. apply IH.
Qed.

Lemma returns_run {A : Type} (P : A -> Prop) (p : prog A) (o : oracle) :
  returns P p -> forall n a, (run o n p).1 = Returned a -> P a.
Proof.
  induction 1 as [a Ha|e|X q k Hk IH]; intros n b; simpl; [by intros [= <-]|done|].
  apply IH.
Qed.

Lemma report_response_200 (b : json) : report_response (json_response 200 b).
Proof. split; [done|by left]. Qed.

Lemma report_response_500 (b : json) : report_response (json_response 500 b).
Proof. split; [done|by right]. Qed.

Ltac returns_tac :=
  apply returns_try_catch;
  [repeat (apply returns_mbind; intros ?)|intros ?];
  apply returns_Ret; auto using report_response_200, report_response_500.

Lemma aggregations_returns (md : Metadata) name f msg :
  (name, f, msg) ∈ aggregations md -> returns report_response f.
Proof.
  unfold aggregations. rewrite !elem_of_cons, elem_of_nil.
  intros H. repeat destruct H as [H|H]; try done; simplify_eq; returns_tac.
Qed.

Lemma aggregations_guarded (md : Metadata) name f msg :
  (name, f, msg) ∈ aggregations md ->
  guarded f (json_response 500 (message_body msg)).
Proof.
  unfold aggregations. rewrite !elem_of_cons, elem_of_nil.
  intros H. repeat destruct H as [H|H]; try done; simplify_eq.
  - apply getSummary_guarded.
  - apply getResolutionRate_guarded.
  - apply getMonthlySummary_guarded.
  - apply getByCategory_guarded.
  - apply getTechnicianPerformance_guarded.
  - apply getCompanySummary_guarded.
  - apply getRecentTickets_guarded.
Qed.

Lemma routes_aggregations (md : Metadata) (r : string) :
  r ∈ routes -> exists f msg, (r, f, msg) ∈ aggregations md.
Proof.
  rewrite <- (aggregations_routes md). intros Hr.
  apply list_elem_of_fmap in Hr as ([name f] & Hname & Hr).
  apply list_elem_of_fmap in Hr as ([[name' f'] msg] & Heq & Hr).
  simpl in *. simplify_eq. by exists f', msg.
Qed.

(** [getServerSession] is awaited outside every [try]: when it rejects,
    [GET] rejects with the same error, makes no store query and gives no
    response. When it resolves, whatever the route selector and the
    behaviour of the store, [GET] answers with a response and does not
    raise; the response carries the JSON content type; its status is 401
    exactly when there is no session, 400 exactly when there is a
    session and the selector is not one of the seven names, and 200 or
    500 otherwise. *)
Theorem GET_responds_unless_session_rejects {Session : Type} (md : Metadata)
    (settled : exn + option Session) (route : option string) (o : oracle) (n : nat) :
  match settled with
  | inl error =>
      run o n (GET (Session := Session) md (inl error) route) = (Raised error, [])
  | inr session =>
      exists resp,
        (run o n (GET md (inr session) route)).1 = Returned resp /\
        resp_headers resp = [("Content-Type", "application/json")] /\
        (resp_status resp = 401 <-> session = None) /\
        (resp_status resp = 400 <->
           session <> None /\ forall r, route = Some r -> r ∉ routes) /\
        (resp_status resp <> 401 -> resp_status resp <> 400 ->
           resp_status resp = 200 \/ resp_status resp = 500)
  end.
Proof.
  destruct settled as [error|session]; [done|].
  destruct session as [x|].
  2:{ eexists. split; [reflexivity|]. simpl.
      split; [done|]. split; [done|]. split; [|done].
      split; [done|]. by intros [? _]. }
  assert ((exists r, route = Some r /\ r ∈ routes) \/
          (forall r, route = Some r -> r ∉ routes)) as [(r & -> & Hr)|Hno].
  { destruct route as [r|]; [|by right].
    destruct (decide (r ∈ routes)); [left; by exists r|right; by intros ? [= <-]]. }
  - destruct (routes_aggregations md r Hr) as (f & msg & Hin).
    rewrite (GET_dispatch md x r f msg Hin).
    destruct (run_guarded f _ o (aggregations_guarded md _ _ _ Hin) n)
      as (resp & Hret & _).
    exists resp. split; [done|].
    destruct (returns_run _ f o (aggregations_returns md _ _ _ Hin) n resp Hret)
      as [Hhead Hstatus].
    split; [done|]. split; [split; [lia|done]|]. split; [|done].
    split; [lia|]. intros [_ Hout]. by destruct (Hout r eq_refl).
  - rewrite GET_default by done.
    eexists. split; [reflexivity|]. simpl.
    split; [done|]. split; [done|]. split; [|lia].
    split; [|done]. intros _. by split.
Qed.

(** ** A 500 comes from a rejected query only *)

Lemma settles_await {X : Type} (q : query X) : settles (fun _ => True) (await q).
Proof. constructor; [done|]. intros x. by constructor. Qed.

Lemma settles_mbind {A B : Type} (Q : A -> Prop) (P : B -> Prop)
    (p : prog A) (f : A -> prog B) :
  settles Q p -> (forall a, settles P (f a)) -> settles P (p ≫= f).
Proof.
  intros Hp Hf. induction Hp as [a _|X q k Hk Hx IH]; simpl; [apply Hf|].
  constructor; [|apply IH]. intros e. by rewrite Hk.
Qed.

Lemma settles_mapM {A B : Type} (f : A -> prog B) (l : list A) :
  (forall x, x ∈ l -> settles (fun _ => True) (f x)) ->
  settles (fun _ => True) (mapM f l).
Proof.
  induction l as [|x l IH]; intros Hf; [by constructor|].
  cbn [mapM]. eapply settles_mbind; [apply Hf; left|]. intros b.
  eapply settles_mbind; [apply IH; intros; apply Hf; by right|].
  intros bs. by constructor.
Qed.

Lemma settles_propagates {A : Type} (P : A -> Prop) (p : prog A) :
  settles P p -> propagates p.
Proof. induction 1; by constructor. Qed.

Lemma run_settles {A : Type} (P : A -> Prop) (p : prog A) (h : exn -> prog A)
    (o : oracle) :
  settles P p ->
  forall n, some_rejected (run o n (try_catch p h)).2 = false ->
  exists a, (run o n (try_catch p h)).1 = Returned a /\ P a.
Proof.
  induction 1 as [a Ha|X q k Hk Hx IH]; intros n; simpl; [by exists a|].
  destruct (o n X q) as [e|x]; simpl; [done|]. apply IH.
Qed.

Ltac settles_tac :=
  repeat first
    [ apply settles_await
    | apply settles_Ret; reflexivity
    | eapply settles_mbind; [|intros ?] ].

Lemma technician_item_settles (item : Row (option Z) CountAll) :
  by_key item ≠ None -> settles (fun _ => True) (technician_item item).
Proof.
  intros Hkey. unfold technician_item. destruct (by_key item) as [i|]; [|done].
  eapply settles_mbind; [apply settles_await|]. intros [user|]; [|by constructor].
  eapply settles_mbind; [apply settles_await|]. intros completed.
  eapply settles_mbind; [apply settles_await|]. intros pending. by constructor.
Qed.

Lemma company_item_settles (item : Row Z CountAllStatus) :
  settles (fun _ => True) (company_item item).
Proof.
  unfold company_item.
  eapply settles_mbind; [apply settles_await|]. intros client.
  eapply settles_mbind; [apply settles_await|]. intros completed.
  eapply settles_mbind; [apply settles_await|]. intros pending. by constructor.
Qed.

Lemma aggregations_answer_200 (md : Metadata) name f msg :
  (name, f, msg) ∈ aggregations md -> name <> "by-category" ->
  answers_200 f (json_response 500 (message_body msg)).
Proof.
  unfold aggregations. rewrite !elem_of_cons, elem_of_nil.
  intros H Hname. repeat destruct H as [H|H]; try done; simplify_eq;
    (eexists; split; [|reflexivity]).
  - settles_tac.
  - settles_tac.
  - settles_tac.
  - eapply settles_mbind; [apply settles_await|]. intros raw.
    eapply settles_mbind; [|intros ?; by constructor].
    apply settles_mapM. intros item [Hkey _]%list_elem_of_filter.
    by apply technician_item_settles.
  - eapply settles_mbind; [apply settles_await|]. intros rows.
    eapply settles_mbind; [|intros ?; by constructor].
    apply settles_mapM. intros item _. apply company_item_settles.
  - settles_tac.
Qed.

(** For the six aggregations that do not read the metadata catalog, and
    whatever the store answers: the response is the report's 500 when a
    query was rejected, and a 200 when none was. A 500 therefore always
    comes from the store, and a rejection is never answered with a 200. *)
Theorem aggregation_500_iff_rejected (md : Metadata) (name : string)
    (f : prog Response) (msg : string) (o : oracle) (n : nat) :
  (name, f, msg) ∈ aggregations md -> name <> "by-category" ->
  exists resp,
    (run o n f).1 = Returned resp /\
    (resp_status resp = 500 <-> some_rejected (run o n f).2 = true) /\
    (resp_status resp = 200 <-> some_rejected (run o n f).2 = false) /\
    (some_rejected (run o n f).2 = true ->
       resp = {| resp_status := 500;
                 resp_headers := [("Content-Type", "application/json")];
                 resp_body := JObj [("message", JStr msg)] |}).
Proof.
  intros Hin Hname.
  destruct (aggregations_answer_200 md name f msg Hin Hname) as (p & Hp & ->).
  destruct (run_guarded (try_catch p (fun _ => Ret (json_response 500 (message_body msg))))
              _ o (ex_intro _ p (conj (settles_propagates _ _ Hp) eq_refl)) n)
    as (resp & Hret & Hrej).
  exists resp. split; [done|].
  destruct (some_rejected _) eqn:Hlog.
  - rewrite Hrej by done. simpl. repeat split; try done; intros; lia.
  - destruct (run_settles _ p _ o Hp n Hlog) as (a & Ha & Hstatus).
    rewrite Hret in Ha. injection Ha as <-. rewrite Hstatus.
    repeat split; try done; intros; lia.
Qed.

(** ** Queries after a rejection *)

(** The summary awaits its three counts one after the other: the
    queries it makes are an initial part of [count()], [count(Open)],
    [count(Closed)]; a rejected count is the last query made; and when
    nothing is rejected all three are made. *)
Theorem getSummary_stops_at_rejection (o : oracle) (n : nat) :
  (run o n getSummary).2.*1
    `prefix_of` [AnyQuery (ticket_count where_all);
                 AnyQuery (ticket_count (where_status_is Status.Open));
                 AnyQuery (ticket_count (where_status_is Status.Closed))] /\
  (forall i q, (run o n getSummary).2 !! i = Some (q, true) ->
     S i = length (run o n getSummary).2) /\
  (some_rejected (run o n getSummary).2 = false ->
     length (run o n getSummary).2 = 3%nat).
Proof.
  simpl.
  destruct (o n nat (ticket_count where_all)) as [e1|total]; simpl.
  { split; [by eexists|]. split; [|done]. by intros [|i] q [=]. }
  destruct (o (S n) nat (ticket_count (where_status_is Status.Open))) as [e2|pending];
    simpl.
  { split; [by eexists|]. split; [|done]. by intros [|[|i]] q [=]. }
  destruct (o (S (S n)) nat (ticket_count (where_status_is Status.Closed)))
    as [e3|completed]; simpl.
  { split; [by eexists|]. split; [|done]. by intros [|[|[|i]]] q [=]. }
  split; [by exists []|]. split; [|done]. by intros [|[|[|i]]] q [=].
Qed.

(** The resolution rate awaits [count()] and then [count(Closed)]: when
    the first is rejected the second is not made. *)
Theorem getResolutionRate_stops_at_rejection (o : oracle) (n : nat) :
  (run o n getResolutionRate).2.*1
    `prefix_of` [AnyQuery (ticket_count where_all);
                 AnyQuery (ticket_count (where_status_is Status.Closed))] /\
  (forall i q, (run o n getResolutionRate).2 !! i = Some (q, true) ->
     S i = length (run o n getResolutionRate).2) /\
  (some_rejected (run o n getResolutionRate).2 = false ->
     length (run o n getResolutionRate).2 = 2%nat).
Proof.
  simpl.
  destruct (o n nat (ticket_count where_all)) as [e1|total]; simpl.
  { split; [by eexists|]. split; [|done]. by intros [|i] q [=]. }
  destruct (o (S n) nat (ticket_count (where_status_is Status.Closed)))
    as [e2|completed]; simpl.
  { split; [by eexists|]. split; [|done]. by intros [|[|i]] q [=]. }
  split; [by exists []|]. split; [|done]. by intros [|[|i]] q [=].
Qed.

(** ** The number of queries of the per-group reports *)

Lemma run_db_log {A : Type} (s : Store) (p : prog A) :
  forall n, (run (db s) n p).2 = (fun q => (q, false)) <$> trace s p.
Proof.
  induction p as [a|e|X q k IH]; intros n; simpl; [done..|]. by rewrite IH.
Qed.

Lemma trace_mbind {A B : Type} (s : Store) (p : prog A) (f : A -> prog B) :
  trace s (p ≫= f)
  = trace s p ++ match eval s p with Returned a => trace s (f a) | Raised _ => [] end.
Proof. induction p as [a|e|X q k IH]; simpl; [done..|]. by rewrite <- IH. Qed.

Lemma trace_try_catch {A : Type} (s : Store) (p : prog A) (h : exn -> prog A) :
  trace s (try_catch p h)
  = trace s p ++ match eval s p with Returned _ => [] | Raised e => trace s (h e) end.
Proof.
  induction p as [a|e|X q k IH]; simpl; [done..|]. by rewrite <- IH.
Qed.

Lemma trace_mapM_length {A B : Type} (s : Store) (f : A -> prog B) (g : A -> B)
    (l : list A) :
  (forall x, x ∈ l -> eval s (f x) = Returned (g x)) ->
  length (trace s (mapM f l)) = sum_list_with (fun x => length (trace s (f x))) l.
Proof.
  induction l as [|x l IH]; intros Hf; [done|].
  cbn [mapM]. rewrite trace_mbind, Hf by left.
  rewrite trace_mbind, (eval_mapM s f g) by (intros; apply Hf; by right).
  simpl. rewrite !length_app, IH by (intros; apply Hf; by right). simpl. lia.
Qed.

Lemma company_item_eval (s : Store) (item : Row Z CountAllStatus) :
  eval s (company_item item) = Returned (company_group s (by_key item)).
Proof.
  unfold company_item, company_group.
  rewrite !eval_mbind, !eval_await. simpl. by rewrite !count_where_client.
Qed.

(** On a store that answers, the company summary makes one grouping
    query and then three queries per distinct client: the person lookup
    and the two counts. *)
Theorem getCompanySummary_query_count (s : Store) :
  length (run (db s) 0 getCompanySummary).2
  = (1 + 3 * length (distinct clientId (tickets s)))%nat.
Proof.
  rewrite run_db_log, length_fmap. unfold getCompanySummary.
  rewrite trace_try_catch, eval_mbind, eval_await, trace_mbind, eval_await.
  rewrite eval_mbind, trace_mbind.
  rewrite (eval_mapM s _ (fun item => company_group s (by_key item)))
    by (intros; apply company_item_eval).
  rewrite !length_app.
  rewrite (trace_mapM_length s _ (fun item => company_group s (by_key item)))
    by (intros; apply company_item_eval).
  simpl. induction (distinct clientId (tickets s)) as [|c cs IH]; [done|].
  rewrite fmap_cons. simpl in *. lia.
Qed.

Lemma technician_item_trace (s : Store) (u : Z) :
  length (trace s (technician_item (group_row userId (tickets s) (Some u))))
  = match persons s !! u with Some _ => 3%nat | None => 1%nat end.
Proof.
  unfold technician_item. simpl. by destruct (persons s !! u).
Qed.

Lemma technician_rows_trace (s : Store) (us : list (option Z)) :
  sum_list_with (fun item => length (trace s (technician_item item)))
    (filter (fun item => by_key item ≠ None) (group_row userId (tickets s) <$> us))
  = (length (filter (fun u => u ≠ None) us)
     + 2 * length (omap (resolve_assignee s) us))%nat.
Proof.
  induction us as [|[u|] us IH]; rewrite ?fmap_cons; [done| |].
  - rewrite !filter_cons_True by done. cbn [sum_list_with].
    rewrite IH, technician_item_trace. unfold resolve_assignee. simpl.
    destruct (persons s !! u); simpl;
      repeat match goal with
             | |- context [list_omap ?A ?B ?f ?l] =>
                 change (list_omap A B f l) with (omap f l)
             end; lia.
  - rewrite !filter_cons_False by (simpl; intros H; by apply H). by rewrite IH.
Qed.

Lemma technician_filtered_eval (s : Store) (us : list (option Z)) item :
  item ∈ filter (fun item => by_key item ≠ None) (group_row userId (tickets s) <$> us) ->
  eval s (technician_item item)
  = Returned (technician_group s <$> resolve_assignee s (by_key item)).
Proof.
  intros [Hkey Hin]%list_elem_of_filter.
  apply list_elem_of_fmap in Hin as ([u|] & -> & _); [|done].
  apply technician_item_eval.
Qed.

(** On a store that answers, the technician report makes one grouping
    query, one person lookup per distinct assignee, and two counts more
    for each assignee that has a person record. *)
Theorem getTechnicianPerformance_query_count (s : Store) :
  length (run (db s) 0 getTechnicianPerformance).2
  = (1 + length (filter (fun u => u ≠ None) (distinct userId (tickets s)))
     + 2 * length (omap (resolve_assignee s) (distinct userId (tickets s))))%nat.
Proof.
  rewrite run_db_log, length_fmap. unfold getTechnicianPerformance.
  rewrite trace_try_catch, eval_mbind, eval_await, trace_mbind, eval_await.
  rewrite eval_mbind, trace_mbind.
  set (rows := filter _ (answer s ticket_groupBy_userId)).
  rewrite (eval_mapM s _ (fun item => technician_group s <$> resolve_assignee s (by_key item)))
    by apply technician_filtered_eval.
  rewrite !length_app.
  rewrite (trace_mapM_length s _
             (fun item => technician_group s <$> resolve_assignee s (by_key item)))
    by apply technician_filtered_eval.
  subst rows. simpl. rewrite technician_rows_trace. lia.
Qed.

(** ** Few tickets, no tickets *)

(** With at most five tickets in the store, the recent-tickets
    aggregation returns all of them, newest first. *)
Theorem getRecentTickets_at_most_five (s : Store) :
  (length (tickets s) <= 5)%nat ->
  exists recent : list Ticket,
    (run (db s) 0 getRecentTickets).1
    = Returned {| resp_status := 200;
                  resp_headers := [("Content-Type", "application/json")];
                  resp_body := JArr (ticket_json <$> recent) |} /\
    recent ≡ₚ tickets s /\
    StronglySorted (fun a b => createdAt b <= createdAt a) recent.
Proof.
  intros Hlen. exists (sort_by newer_or_same (tickets s)).
  pose proof (sort_by_Permutation newer_or_same (tickets s)) as Hperm.
  split; [|split; [done|apply findMany_desc_sorted]].
  simpl. rewrite take_ge; [done|]. rewrite Hperm. lia.
Qed.

(** With no ticket in the store, whatever the person table and the
    metadata catalog: the summary counts are all zero and the five
    list-valued reports answer 200 with the empty list. *)
Theorem reports_without_tickets (md : Metadata) (s : Store) :
  tickets s = [] ->
  (run (db s) 0 getSummary).1
  = Returned {| resp_status := 200;
                resp_headers := [("Content-Type", "application/json")];
                resp_body := JObj [("totalTickets", JNum 0);
                                   ("pendingTickets", JNum 0);
                                   ("completedTickets", JNum 0)] |} /\
  forall f, f ∈ [getRecentTickets; getMonthlySummary; getByCategory md;
                 getTechnicianPerformance; getCompanySummary] ->
    (run (db s) 0 f).1
    = Returned {| resp_status := 200;
                  resp_headers := [("Content-Type", "application/json")];
                  resp_body := JArr [] |}.
Proof.
  destruct s as [ts ps]. simpl. intros ->. split; [done|].
  intros f Hf. rewrite !elem_of_cons, elem_of_nil in Hf.
  repeat destruct Hf as [Hf|Hf]; try done; by subst f.
Qed.

(** ** Every ticket is counted once *)

Lemma sum_one_hot_key {K : Type} `{EqDecision K} (x : K) (ks : list K) :
  NoDup ks ->
  sum_list_with (fun k => if decide (x = k) then 1%nat else 0%nat) ks
  = if decide (x ∈ ks) then 1%nat else 0%nat.
Proof.
  induction 1 as [|k ks Hk Hks IH]; simpl; [done|]. rewrite IH.
  destruct (decide (x = k)) as [->|Hne].
  - rewrite (decide_False (P := k ∈ ks)) by done.
    by rewrite decide_True by left.
  - destruct (decide (x ∈ ks)) as [Hin|Hin].
    + by rewrite decide_True by by right.
    + rewrite decide_False; [done|]. by intros [?|?]%elem_of_cons.
Qed.

Lemma sum_list_with_zero {A : Type} (l : list A) :
  sum_list_with (fun _ => 0%nat) l = 0%nat.
Proof. by induction l. Qed.

Lemma sum_list_with_fmap {A B : Type} (f : B -> nat) (g : A -> B) (l : list A) :
  sum_list_with f (g <$> l) = sum_list_with (fun x => f (g x)) l.
Proof.
  induction l as [|x l IH]; [done|].
  rewrite fmap_cons. cbn [sum_list_with]. by rewrite IH.
Qed.

(** Groups by a column, restricted by a condition: when the groups are
    distinct and cover the tickets that meet the condition, their sizes
    add up to the number of those tickets. *)
Lemma sum_count_partition {K : Type} `{EqDecision K} (key : Ticket -> K)
    (Q : Ticket -> Prop) `{!forall t, Decision (Q t)} (ks : list K) (l : list Ticket) :
  NoDup ks -> (forall t, t ∈ l -> Q t -> key t ∈ ks) ->
  sum_list_with (fun k => length (filter (fun t => key t = k /\ Q t) l)) ks
  = length (filter Q l).
Proof.
  intros Hnd. induction l as [|t l IH]; intros Hcover.
  - apply sum_list_with_zero.
  - rewrite (sum_list_with_ext_in _
      (fun k => ((if decide (Q t) then if decide (key t = k) then 1 else 0 else 0)
                 + length (filter (fun t => key t = k /\ Q t) l))%nat)).
    2:{ intros k _. rewrite filter_cons.
        destruct (decide (Q t)) as [HQ|HQ], (decide (key t = k)) as [Hk|Hk];
          (rewrite decide_True by done) || (rewrite decide_False by by intros [??]);
          done. }
    rewrite sum_list_with_add, IH by (intros; apply Hcover; [by right|done]).
    rewrite filter_cons. destruct (decide (Q t)) as [HQ|HQ].
    + rewrite sum_one_hot_key by done.
      rewrite decide_True by (apply Hcover; [left|done]). done.
    + by rewrite sum_list_with_zero.
Qed.

Lemma sum_count_groups {K : Type} `{EqDecision K} (key : Ticket -> K)
    (ks : list K) (l : list Ticket) :
  NoDup ks -> (forall t, t ∈ l -> key t ∈ ks) ->
  sum_list_with (fun k => length (filter (fun t => key t = k) l)) ks = length l.
Proof.
  intros Hnd Hcover.
  rewrite (sum_list_with_ext_in _
    (fun k => length (filter (fun t => key t = k /\ True) l))).
  2:{ intros k _. f_equal. apply list_filter_iff. intros t. by split; [|intros [? _]]. }
  rewrite (sum_count_partition key (fun _ => True)) by auto.
  f_equal. induction l as [|t l IH]; [done|].
  rewrite filter_cons_True by done. f_equal. apply IH. intros; apply Hcover; by right.
Qed.

(** For every store, whatever the years of its creation times: the
    monthly summary has one pair per distinct month key (the first seven
    characters of the ISO string of a creation time), [tickets] is the
    number of tickets with that key, and the [tickets] of all pairs add
    up to the number of tickets. *)
Theorem getMonthlySummary_counts_every_ticket (s : Store) :
  exists ks : list string,
    (run (db s) 0 getMonthlySummary).1
    = Returned {| resp_status := 200;
                  resp_headers := [("Content-Type", "application/json")];
                  resp_body := JArr (key_entry_json s <$> ks) |} /\
    NoDup ks /\
    (forall k, k ∈ ks <-> exists t, t ∈ tickets s /\ month_key (createdAt t) = k) /\
    sum_list_with
      (fun k => length (filter (fun t => month_key (createdAt t) = k) (tickets s))) ks
    = length (tickets s).
Proof.
  destruct (getMonthlySummary_eval s) as (ks & Heval & Hnd & Hks).
  exists ks. rewrite run_db. split; [|repeat split; try done; try apply Hks].
  { rewrite Heval. unfold json_response. do 3 f_equal.
    by rewrite <- list_fmap_compose. }
  apply (sum_count_groups (fun t => month_key (createdAt t))); [done|].
  intros t Ht. apply Hks. by exists t.
Qed.

Lemma getByCategory_eval (md : Metadata) (s : Store) :
  (forall t, t ∈ tickets s -> is_Some (metadata_type md !! type t)) ->
  eval s (getByCategory md)
  = Returned (json_response 200
      (JArr (category_json <$> (category_group md s <$> distinct type (tickets s))))).
Proof.
  intros Hcat. unfold getByCategory.
  rewrite eval_try_catch, eval_mbind, eval_await, eval_mbind.
  rewrite (eval_mapM s _ (fun item => category_json (category_group md s (by_key item)))).
  - simpl. by rewrite <- !list_fmap_compose.
  - intros item Hitem. simpl in Hitem.
    apply list_elem_of_fmap in Hitem as (ty & -> & Hty).
    apply elem_of_distinct in Hty as (t & Ht & <-).
    unfold category_item, get_member, category_group. simpl.
    by destruct (Hcat t Ht) as [entry ->].
Qed.

(** When every type among the tickets has a catalog entry, the counts
    of the by-category entries add up to the number of tickets. *)
Theorem getByCategory_counts_every_ticket (md : Metadata) (s : Store) :
  (forall t, t ∈ tickets s -> is_Some (metadata_type md !! type t)) ->
  exists groups : list (string * MetaEntry * nat),
    (run (db s) 0 (getByCategory md)).1
    = Returned {| resp_status := 200;
                  resp_headers := [("Content-Type", "application/json")];
                  resp_body := JArr (category_json <$> groups) |} /\
    sum_list_with snd groups = length (tickets s).
Proof.
  intros Hcat. exists (category_group md s <$> distinct type (tickets s)).
  split; [by rewrite run_db, getByCategory_eval|].
  rewrite sum_list_with_fmap. simpl.
  apply (sum_count_groups type); [apply distinct_NoDup|].
  intros t Ht. apply elem_of_distinct. by exists t.
Qed.

Lemma getCompanySummary_eval (s : Store) :
  eval s getCompanySummary
  = Returned (json_response 200
      (JArr (company_json <$> (company_group s <$> distinct clientId (tickets s))))).
Proof.
  unfold getCompanySummary.
  rewrite eval_try_catch, eval_mbind, eval_await, eval_mbind.
  rewrite (eval_mapM s _ (fun item => company_group s (by_key item)))
    by (intros; apply company_item_eval).
  simpl. by rewrite <- !list_fmap_compose.
Qed.

(** The company summary and the summary agree: over all groups,
    [completed] adds up to the summary's [completedTickets] and
    [pending] to its [pendingTickets]. *)
Theorem getCompanySummary_adds_up_to_summary (s : Store) :
  exists (rows : list (string * nat * nat)) (total pending completed : nat),
    (run (db s) 0 getCompanySummary).1
    = Returned {| resp_status := 200;
                  resp_headers := [("Content-Type", "application/json")];
                  resp_body :=
                    JArr ((fun r => JObj [("name", JStr r.1.1);
                                          ("completed", JNum (Z.of_nat r.1.2));
                                          ("pending", JNum (Z.of_nat r.2))]) <$> rows) |} /\
    (run (db s) 0 getSummary).1
    = Returned {| resp_status := 200;
                  resp_headers := [("Content-Type", "application/json")];
                  resp_body := JObj [("totalTickets", JNum (Z.of_nat total));
                                     ("pendingTickets", JNum (Z.of_nat pending));
                                     ("completedTickets", JNum (Z.of_nat completed))] |} /\
    sum_list_with (fun r => r.1.2) rows = completed /\
    sum_list_with (fun r => r.2) rows = pending.
Proof.
  exists ((fun g => (company_name g, company_completed g, company_pending g))
            <$> (company_group s <$> distinct clientId (tickets s))),
    (length (tickets s)),
    (length (filter (fun t => status t = Status.Open) (tickets s))),
    (length (filter (fun t => status t = Status.Closed) (tickets s))).
  split.
  { rewrite run_db, getCompanySummary_eval. unfold json_response. do 3 f_equal.
    by rewrite <- !list_fmap_compose. }
  split; [simpl; by rewrite count_where_all, !count_where_status|].
  rewrite !sum_list_with_fmap. simpl.
  split; apply (sum_count_partition clientId); try apply distinct_NoDup;
    intros t Ht _; apply elem_of_distinct; by exists t.
Qed.

Lemma closed_open_le_assigned (u : Z) (l : list Ticket) :
  (length (filter (fun t => userId t = Some u /\ status t = Status.Closed) l)
   + length (filter (fun t => userId t = Some u /\ status t = Status.Open) l)
   <= length (filter (fun t => userId t = Some u) l))%nat.
Proof.
  induction l as [|t l IH]; [done|].
  rewrite !filter_cons.
  destruct (decide (userId t = Some u)) as [Hu|Hu].
  - destruct (decide (status t = Status.Closed)) as [Hc|Hc].
    + rewrite decide_True by done.
      rewrite decide_False by (intros [_ Ho]; rewrite Hc in Ho; done).
      simpl. lia.
    + rewrite decide_False by by intros [_ ?].
      destruct (decide (userId t = Some u /\ status t = Status.Open)); simpl; lia.
  - rewrite !decide_False by by intros [? _]. done.
Qed.

Lemma getTechnicianPerformance_eval (s : Store) :
  eval s getTechnicianPerformance
  = Returned (json_response 200
      (JArr (technician_json <$>
             (technician_group s <$>
              omap (resolve_assignee s) (distinct userId (tickets s)))))).
Proof.
  unfold getTechnicianPerformance.
  rewrite eval_try_catch, eval_mbind, eval_await, eval_mbind.
  destruct (technician_rows_eval s (distinct userId (tickets s)))
    as (result & Hres & Hrows).
  simpl. rewrite Hres. simpl. by rewrite Hrows.
Qed.

(** In every group of the technician report [completed] plus [pending]
    is at most [total], and the [total] of all groups add up to the
    number of tickets whose assignee has a person record. *)
Theorem getTechnicianPerformance_totals (s : Store) :
  exists rows : list (string * nat * nat * nat),
    (run (db s) 0 getTechnicianPerformance).1
    = Returned {| resp_status := 200;
                  resp_headers := [("Content-Type", "application/json")];
                  resp_body :=
                    JArr ((fun r => JObj [("name", JStr r.1.1.1);
                                          ("total", JNum (Z.of_nat r.1.1.2));
                                          ("completed", JNum (Z.of_nat r.1.2));
                                          ("pending", JNum (Z.of_nat r.2))]) <$> rows) |} /\
    Forall (fun r => (r.1.2 + r.2 <= r.1.1.2)%nat) rows /\
    sum_list_with (fun r => r.1.1.2) rows = length (filter (has_technician s) (tickets s)).
Proof.
  set (resolved := omap (resolve_assignee s) (distinct userId (tickets s))).
  exists ((fun g => (tech_name g, tech_total g, tech_completed g, tech_pending g))
            <$> (technician_group s <$> resolved)).
  split.
  { rewrite run_db, getTechnicianPerformance_eval. unfold json_response. do 3 f_equal.
    by rewrite <- !list_fmap_compose. }
  split.
  - apply Forall_fmap, Forall_fmap, Forall_forall. intros [u p] _. simpl.
    apply closed_open_le_assigned.
  - rewrite !sum_list_with_fmap. simpl.
    rewrite <- (sum_count_partition userId (has_technician s) (Some <$> resolved.*1)).
    + rewrite sum_list_with_fmap, sum_list_with_fmap.
      apply sum_list_with_ext_in. intros [u p] Hin. simpl. f_equal.
      apply list_filter_iff. intros t. split; [|by intros [? _]].
      intros Hu. split; [done|]. unfold has_technician. rewrite Hu.
      apply elem_of_resolved in Hin as [_ Hp]. unfold resolve_assignee. simpl.
      by rewrite Hp.
    + apply (NoDup_fmap_2 _). apply resolved_NoDup, distinct_NoDup.
    + intros t Ht [[u p] Hres]. unfold resolve_assignee in Hres.
      destruct (userId t) as [i|] eqn:Hi; simpl in Hres; [|done].
      destruct (persons s !! i) as [q|] eqn:Hq; simpl in Hres; [|done].
      apply list_elem_of_fmap. exists i. split; [done|].
      apply list_elem_of_fmap. exists (i, q). split; [done|].
      apply elem_of_resolved. split; [|done].
      apply elem_of_distinct. by exists t.
Qed.

(** ** The months of the monthly summary are in chronological order *)

Lemma month_of_year_range (doe : Z) :
  0 <= doe < 146097 -> 0 <= month_of_year doe <= 11.
Proof.
  intros Hdoe. unfold month_of_year, year_of_era.
  set (yoe := (doe - doe / 1460 + doe / 36524 - doe / 146096) / 365).
  set (doy := doe - (365 * yoe + yoe / 4 - yoe / 100)).
  assert (0 <= doy <= 365) by (subst doy yoe; Z.div_mod_to_equations; lia).
  Z.div_mod_to_equations; lia.
Qed.

(** Months counted from March, years from an era of 400 years. *)
Lemma month_index_eq (days : Z) :
  month_index days
  = 12 * (year_of_era ((days + 719468) mod 146097) + (days + 719468) / 146097 * 400)
    + month_of_year ((days + 719468) mod 146097) + 3.
Proof.
  unfold month_index, civil_from_days. cbv zeta. cbn [fst snd].
  fold (year_of_era ((days + 719468) mod 146097)).
  fold (month_of_year ((days + 719468) mod 146097)).
  pose proof (month_of_year_range ((days + 719468) mod 146097)
                (Z.mod_pos_bound _ 146097 eq_refl)) as Hmp.
  revert Hmp.
  generalize (year_of_era ((days + 719468) mod 146097)).
  generalize (month_of_year ((days + 719468) mod 146097)).
  intros mp yoe Hmp.
  destruct (Z.ltb_spec mp 10);
    repeat match goal with |- context [?a <=? ?b] => destruct (Z.leb_spec a b) end; lia.
Qed.

Lemma year_of_era_step (doe : Z) :
  0 <= doe < 146096 -> year_of_era doe <= year_of_era (doe + 1).
Proof.
  intros Hdoe. unfold year_of_era. Z.div_mod_to_equations; lia.
Qed.

Lemma month_of_year_step (doe : Z) :
  year_of_era (doe + 1) = year_of_era doe ->
  month_of_year doe <= month_of_year (doe + 1).
Proof.
  unfold month_of_year. intros ->. generalize (year_of_era doe). intros yoe.
  Z.div_mod_to_equations; lia.
Qed.

Lemma month_index_step (days : Z) : month_index days <= month_index (days + 1).
Proof.
  rewrite !month_index_eq.
  replace (days + 1 + 719468) with (days + 719468 + 1) by lia.
  set (z := days + 719468).
  destruct (Z.eq_dec (z mod 146097) 146096) as [Hlast|Hnot].
  - assert ((z + 1) mod 146097 = 0 /\ (z + 1) / 146097 = z / 146097 + 1) as [-> ->]
      by (Z.div_mod_to_equations; lia).
    rewrite Hlast.
    change (year_of_era 0) with 0. change (month_of_year 0) with 0.
    change (year_of_era 146096) with 399. change (month_of_year 146096) with 11.
    lia.
  - assert ((z + 1) mod 146097 = z mod 146097 + 1 /\ (z + 1) / 146097 = z / 146097)
      as [-> ->] by (Z.div_mod_to_equations; lia).
    assert (0 <= z mod 146097 < 146096) as Hdoe
      by (pose proof (Z.mod_pos_bound z 146097); lia).
    pose proof (year_of_era_step _ Hdoe) as Hyear.
    pose proof (month_of_year_range (z mod 146097)) as Hm.
    pose proof (month_of_year_range (z mod 146097 + 1)) as Hm'.
    destruct (Z.eq_dec (year_of_era (z mod 146097 + 1)) (year_of_era (z mod 146097)))
      as [Heq|Hne].
    + pose proof (month_of_year_step _ Heq). lia.
    + lia.
Qed.

Lemma month_index_mono (d d' : Z) : d <= d' -> month_index d <= month_index d'.
Proof.
  intros Hle. replace d' with (d + Z.of_nat (Z.to_nat (d' - d))) by lia.
  induction (Z.to_nat (d' - d)) as [|n IH]; [by rewrite Z.add_0_r|].
  etrans; [exact IH|]. rewrite Nat2Z.inj_succ.
  replace (d + Z.succ (Z.of_nat n)) with (d + Z.of_nat n + 1) by lia.
  apply month_index_step.
Qed.

Lemma utc_month_index (d : Date) :
  month_index (Day d) = 12 * (utc_month d).1 + (utc_month d).2.
Proof. reflexivity. Qed.

Lemma utc_month_mono (d d' : Date) :
  d <= d' -> utc_month d = utc_month d' \/ month_lt (utc_month d) (utc_month d').
Proof.
  intros Hle.
  assert (month_index (Day d) <= month_index (Day d')) as Hidx
    by (apply month_index_mono, Z.div_le_mono; [done|lia]).
  rewrite !utc_month_index in Hidx.
  pose proof (civil_month_range (Day d)) as Hm.
  pose proof (civil_month_range (Day d')) as Hm'.
  unfold month_lt, utc_month, YearFromTime, MonthFromTime in *. cbn [fst snd] in *.
  revert Hidx Hm Hm'.
  generalize ((civil_from_days (Day d)).1). intros [y m].
  generalize ((civil_from_days (Day d')).1). intros [y' m']. cbn [fst snd].
  intros Hidx Hm Hm'.
  destruct (decide (y = y' /\ m = m')) as [[-> ->]|Hne]; [by left|right; lia].
Qed.

Lemma acc_add_keys (k : string) (n : nat) (acc : list (string * MonthBucket)) :
  (acc_add k n acc).*1 = acc.*1.
Proof.
  induction acc as [|[k' b] acc IH]; [done|]. cbn [acc_add].
  case_bool_decide; [done|]. rewrite !fmap_cons. by rewrite IH.
Qed.

Lemma monthly_step_keys (acc : list (string * MonthBucket)) (item : Row Date CountAll) :
  (monthly_step acc item).*1 = keys_step acc.*1 (month_key (by_key item)).
Proof.
  unfold monthly_step, keys_step, acc_has. rewrite acc_add_keys.
  case_bool_decide; [done|]. by rewrite fmap_app.
Qed.

Lemma monthly_fold_keys (rows : list (Row Date CountAll))
    (acc : list (string * MonthBucket)) :
  (foldl monthly_step acc rows).*1
  = foldl keys_step acc.*1 ((fun item => month_key (by_key item)) <$> rows).
Proof.
  revert acc. induction rows as [|item rows IH]; intros acc; [done|].
  rewrite fmap_cons. cbn [foldl]. by rewrite IH, monthly_step_keys.
Qed.

(** Over timestamps in ascending order the keys are those of
    representatives taken in chronological order of their months. *)
Lemma keys_fold_chronological (later earlier reps : list Date) :
  StronglySorted Z.le (earlier ++ later) ->
  (forall d, d ∈ earlier ++ later -> 0 <= YearFromTime d <= 9999) ->
  (forall r, r ∈ reps -> r ∈ earlier) ->
  StronglySorted (fun a b => month_lt (utc_month a) (utc_month b)) reps ->
  exists reps',
    foldl keys_step (month_key <$> reps) (month_key <$> later) = month_key <$> reps' /\
    (forall r, r ∈ reps' -> r ∈ earlier ++ later) /\
    StronglySorted (fun a b => month_lt (utc_month a) (utc_month b)) reps'.
Proof.
  revert earlier reps. induction later as [|d later IH];
    intros earlier reps Hsorted Hrange Hsub Hreps.
  - exists reps. split; [done|]. split; [|done].
    intros r Hr. rewrite app_nil_r. by apply Hsub.
  - rewrite fmap_cons. cbn [foldl].
    assert (earlier ++ d :: later = (earlier ++ [d]) ++ later) as Hassoc
      by by rewrite <- app_assoc.
    rewrite Hassoc in Hsorted, Hrange.
    assert (forall r, r ∈ reps -> r ∈ earlier ++ [d]) as Hsub'
      by (intros r Hr; apply elem_of_app; left; by apply Hsub).
    unfold keys_step at 2. case_bool_decide as Hin.
    + destruct (IH (earlier ++ [d]) reps Hsorted Hrange Hsub' Hreps)
        as (reps' & Hfold & Hsub'' & Hsorted').
      exists reps'. by rewrite Hassoc.
    + destruct (IH (earlier ++ [d]) (reps ++ [d])) as (reps' & Hfold & Hsub'' & Hsorted').
      * done.
      * done.
      * intros r [Hr| ->%list_elem_of_singleton]%elem_of_app; [by apply Hsub'|].
        apply elem_of_app. right. by left.
      * apply StronglySorted_app_2; [|done|repeat constructor].
        intros r d' Hr ->%list_elem_of_singleton.
        assert (r <= d) as Hle.
        { apply StronglySorted_app_1_l in Hsorted.
          eapply (StronglySorted_app_1_elem_of _ earlier [d]); [done| |by left].
          by apply Hsub. }
        destruct (utc_month_mono r d Hle) as [Heq|Hlt]; [|done].
        exfalso. apply Hin. apply list_elem_of_fmap. exists r. split; [|done].
        rewrite !month_key_in_range, Heq; [done|..]; apply Hrange.
        -- apply elem_of_app. left. apply elem_of_app. left. by apply Hsub.
        -- apply elem_of_app. left. apply elem_of_app. right. by left.
      * exists reps'. rewrite Hassoc. by rewrite fmap_app in Hfold.
Qed.

Lemma getMonthlySummary_keys (s : Store) :
  let acc := foldl monthly_step [] (answer s ticket_groupBy_createdAt) in
  eval s getMonthlySummary
  = Returned (json_response 200 (JArr (bucket_json <$> (key_bucket s <$> acc.*1)))).
Proof.
  intros acc.
  set (ds := sort_by Z.leb (distinct createdAt (tickets s))).
  set (cnt d := count_key createdAt d (tickets s)).
  assert (ds ≡ₚ distinct createdAt (tickets s)) as Hperm by apply sort_by_Permutation.
  destruct (monthly_fold_buckets cnt ds [] []) as (ks & Hacc & Hnd & Hks).
  { exists []. split; [done|]. split; [constructor|].
    intros k. split; [by intros ?%elem_of_nil|]. by intros (d & ?%elem_of_nil & _). }
  change (foldl monthly_step [] (date_row cnt <$> ds)) with acc in Hacc.
  unfold getMonthlySummary. rewrite eval_try_catch, eval_mbind, eval_await.
  fold acc. simpl. do 3 f_equal. rewrite Hacc, key_entry_keys.
  rewrite <- !list_fmap_compose. apply list_fmap_ext. intros i k _. simpl.
  unfold key_bucket, cnt. rewrite key_total_count; [done|..].
  - rewrite Hperm. apply distinct_NoDup.
  - intros t Ht. rewrite Hperm. apply elem_of_distinct. by exists t.
Qed.

(** When the creation times fall in the UTC years 0000 to 9999, the
    pairs of the monthly summary are in chronological order of their
    months, earliest first. *)
Theorem getMonthlySummary_chronological (s : Store) :
  (forall t, t ∈ tickets s -> 0 <= YearFromTime (createdAt t) <= 9999) ->
  exists months : list (Z * Z),
    (run (db s) 0 getMonthlySummary).1
    = Returned {| resp_status := 200;
                  resp_headers := [("Content-Type", "application/json")];
                  resp_body := JArr (month_entry s <$> months) |} /\
    StronglySorted month_lt months.
Proof.
  intros Hyears.
  set (ds := sort_by Z.leb (distinct createdAt (tickets s))).
  assert (ds ≡ₚ distinct createdAt (tickets s)) as Hperm by apply sort_by_Permutation.
  assert (forall d, d ∈ ds -> exists t, t ∈ tickets s /\ createdAt t = d) as Hds
    by (intros d Hd; rewrite Hperm in Hd; by apply elem_of_distinct in Hd).
  destruct (keys_fold_chronological ds [] []) as (reps & Hfold & Hsub & Hsorted).
  { eapply StronglySorted_weaken; [|apply sort_by_StronglySorted].
    - intros a b. apply Z.leb_le.
    - intros a b. rewrite !Z.leb_le. lia.
    - intros a b c. rewrite !Z.leb_le. lia. }
  { intros d (t & Ht & <-)%Hds. by apply Hyears. }
  { by intros r ?%elem_of_nil. }
  { constructor. }
  exists (utc_month <$> reps). split.
  - rewrite run_db, getMonthlySummary_keys, monthly_fold_keys.
    change (answer s ticket_groupBy_createdAt)
      with (group_row createdAt (tickets s) <$> ds).
    rewrite <- (list_fmap_compose (group_row createdAt (tickets s))).
    change (foldl keys_step [] (month_key <$> ds) = month_key <$> reps) in Hfold.
    change ((fun item : Row Date CountAll => month_key (by_key item))
            ∘ group_row createdAt (tickets s)) with month_key.
    simpl. rewrite Hfold. unfold json_response. do 3 f_equal.
    rewrite <- !list_fmap_compose. apply list_fmap_ext. intros i r Hr.
    apply list_elem_of_lookup_2, Hsub, Hds in Hr as (t0 & Ht0 & <-). simpl.
    unfold key_bucket, month_entry, bucket_json. simpl.
    rewrite month_key_in_range by by apply Hyears. do 4 f_equal.
    rewrite (filter_ext_in _ (fun t => utc_month (createdAt t) = utc_month (createdAt t0)));
      [done|].
    intros t Ht. rewrite month_key_in_range by by apply Hyears.
    split; [|by intros ->].
    apply month_label_inj; apply utc_month_in_range; by apply Hyears.
  - by apply (StronglySorted_fmap utc_month
                 (fun a b => month_lt (utc_month a) (utc_month b)) month_lt).
Qed.

(** ** The further properties on the sample data *)

Lemma aggregation_500_iff_rejected_witness :
  exists resp,
    (run (flaky_db six_tickets [2%nat]) 0 getCompanySummary).1 = Returned resp /\
    resp_status resp = 500.
Proof.
  destruct (aggregation_500_iff_rejected sample_metadata "company-summary"
              getCompanySummary "Hubo un error al obtener el resumen por empresa"
              (flaky_db six_tickets [2%nat]) 0) as (resp & Hret & H500 & _).
  - do 5 right. left.
  - discriminate.
  - exists resp. split; [done|]. apply H500. vm_compute. reflexivity.
Defined.

Lemma getRecentTickets_at_most_five_witness :
  exists recent : list Ticket,
    (run (db three_tickets) 0 getRecentTickets).1
    = Returned {| resp_status := 200;
                  resp_headers := [("Content-Type", "application/json")];
                  resp_body := JArr (ticket_json <$> recent) |} /\
    recent ≡ₚ tickets three_tickets /\
    StronglySorted (fun a b => createdAt b <= createdAt a) recent.
Proof. apply getRecentTickets_at_most_five. simpl. lia. Defined.

Lemma reports_without_tickets_witness :
  (run (db no_tickets) 0 getSummary).1
  = Returned {| resp_status := 200;
                resp_headers := [("Content-Type", "application/json")];
                resp_body := JObj [("totalTickets", JNum 0);
                                   ("pendingTickets", JNum 0);
                                   ("completedTickets", JNum 0)] |} /\
  (run (db no_tickets) 0 (getByCategory bug_only_metadata)).1
  = Returned {| resp_status := 200;
                resp_headers := [("Content-Type", "application/json")];
                resp_body := JArr [] |}.
Proof.
  destruct (reports_without_tickets bug_only_metadata no_tickets eq_refl)
    as [Hsummary Hlists].
  split; [done|]. apply Hlists. right. right. left.
Defined.

Lemma getByCategory_counts_every_ticket_witness :
  exists groups : list (string * MetaEntry * nat),
    (run (db six_tickets) 0 (getByCategory sample_metadata)).1
    = Returned {| resp_status := 200;
                  resp_headers := [("Content-Type", "application/json")];
                  resp_body := JArr (category_json <$> groups) |} /\
    sum_list_with snd groups = length (tickets six_tickets).
Proof.
  apply getByCategory_counts_every_ticket.
  apply Forall_forall. decide_by_computation.
Defined.

Lemma getMonthlySummary_chronological_witness :
  exists months : list (Z * Z),
    (run (db six_tickets) 0 getMonthlySummary).1
    = Returned {| resp_status := 200;
                  resp_headers := [("Content-Type", "application/json")];
                  resp_body := JArr (month_entry six_tickets <$> months) |} /\
    StronglySorted month_lt months.
Proof.
  apply getMonthlySummary_chronological.
  apply Forall_forall. decide_by_computation.
Defined.

(** The company summary of the six sample tickets makes seven queries,
    the technician report five. *)
Example query_counts_six_tickets :
  length (run (db six_tickets) 0 getCompanySummary).2 = 7%nat /\
  length (run (db six_tickets) 0 getTechnicianPerformance).2 = 5%nat.
Proof. split; vm_compute; reflexivity. Qed.

(** * Properties of the ticket card *)

Import TicketInfo.

Example TicketInfo_initials_samples :
  initials "Luis Alberto" = "LA" /\
  initials "Ana" = "A" /\
  initials " Ana  Maria " = "AM" /\
  initials "" = "".
Proof. repeat split. Qed.

Lemma split_space_cons (s : string) :
  exists w ws, split_space s = w :: ws.
Proof.
  induction s as [|c r (w & ws & IH)]; simpl; [by eexists _, _|].
  destruct (Ascii.eqb c " "); [by eexists _, _|]. rewrite IH. by eexists _, _.
Qed.

Lemma split_space_word (w : string) : no_space w -> split_space w = [w].
Proof.
  induction w as [|c r IH]; simpl; [done|]. intros [Hc Hr].
  rewrite (proj2 (Ascii.eqb_neq c " ") Hc). by rewrite IH.
Qed.

Lemma split_space_app (w rest : string) :
  no_space w -> split_space (w +:+ " " +:+ rest) = w :: split_space rest.
Proof.
  induction w as [|c r IH]; simpl; [done|]. intros [Hc Hr].
  rewrite (proj2 (Ascii.eqb_neq c " ") Hc). by rewrite IH.
Qed.

(** Splitting at the spaces undoes joining space-free words with spaces. *)
Lemma split_space_join (ws : list string) :
  ws <> [] -> Forall no_space ws -> split_space (join_space ws) = ws.
Proof.
  induction ws as [|w ws IH]; [done|]. intros _ Hws.
  apply Forall_cons in Hws as [Hw Hws]. destruct ws as [|w' ws].
  - by apply split_space_word.
  - change (join_space (w :: w' :: ws)) with (w +:+ " " +:+ join_space (w' :: ws)).
    rewrite split_space_app by done. f_equal. by apply IH.
Qed.

(** The initials of a name made of space-free words joined with single
    spaces are the first characters of its words, in order; an empty
    word gives none. *)
Theorem TicketInfo_initials_of_words (ws : list string) :
  Forall no_space ws ->
  initials (join_space ws) = join_empty (char0 <$> ws).
Proof.
  intros Hws. destruct ws as [|w ws]; [done|].
  unfold initials. by rewrite split_space_join.
Qed.

Lemma initials_step (c : ascii) (r : string) :
  initials (String c r)
  = if Ascii.eqb c " " then initials r
    else String c (join_empty (char0 <$> tail (split_space r))).
Proof.
  unfold initials. simpl. destruct (Ascii.eqb c " "); [done|].
  by destruct (split_space_cons r) as (w & ws & ->).
Qed.

Lemma initials_tail_facts (s : string) :
  no_space (initials s) /\
  no_space (join_empty (char0 <$> tail (split_space s))) /\
  (String.length (initials s) <= String.length s)%nat /\
  (String.length (join_empty (char0 <$> tail (split_space s))) <= String.length s)%nat.
Proof.
  induction s as [|c r (IH1 & IH2 & IH3 & IH4)]; [by simpl|].
  rewrite initials_step. simpl.
  destruct (Ascii.eqb c " ") eqn:Hc.
  - change (join_empty (char0 <$> tail ("" :: split_space r))) with (initials r).
    repeat split; try done; lia.
  - apply Ascii.eqb_neq in Hc.
    destruct (split_space_cons r) as (w & ws & Hsplit). rewrite Hsplit in *.
    simpl in *. repeat split; try done; lia.
Qed.

(** The initials shown in an avatar never contain a space, are never
    longer than the name, and are empty exactly when the name is empty
    or made of spaces only. *)
Theorem TicketInfo_initials_no_space (s : string) :
  no_space (initials s) /\
  (String.length (initials s) <= String.length s)%nat /\
  (initials s = "" <-> only_spaces s).
Proof.
  destruct (initials_tail_facts s) as (H1 & _ & H3 & _).
  split; [done|]. split; [done|].
  induction s as [|c r IH]; [done|].
  rewrite initials_step. simpl. destruct (Ascii.eqb c " ") eqn:Hc.
  - apply Ascii.eqb_eq in Hc. rewrite IH.
    + split; [by split|by intros [_ ?]].
    + by destruct (initials_tail_facts r) as (? & _).
    + by destruct (initials_tail_facts r) as (_ & _ & ? & _).
  - apply Ascii.eqb_neq in Hc. split; [done|by intros [? _]].
Qed.


(** Read outside the contact part, the button data of an unassigned
    ticket would carry the placeholders. *)
Example TicketInfo_whatsappData_unassigned :
  whatsappData (sample_props "User" None)
  = mkWhatsapp "undefined undefined" (Some "555-0110") "Printer" "42" /\
  wa_phone (whatsappData (sample_props "Client" None)) = None.
Proof. split; reflexivity. Qed.

Lemma TicketInfo_initials_of_words_witness :
  initials (join_space ["Luis"; "Alberto"; "Mora"]) = "LAM".
Proof.
  apply (TicketInfo_initials_of_words ["Luis"; "Alberto"; "Mora"]).
  repeat constructor; discriminate.
Defined.
